(** * Device provisioning and credential lifecycle of the IoT PaaS API

    A shallow embedding of the Express routes [routes/provision.js] and
    [routes/devices.js] together with the [authenticate] middleware, and the
    properties of the provisioning protocol proved over it.

    A [string] of the model is the UTF-8 encoding of a string of the program:
    these are the bytes [hash.update] digests and the store compares. The
    validators count characters, not bytes ([isLength_len]), and [trim] and
    [toLowerCase] know the characters outside ASCII they act on. Identifiers
    and generated passwords are ASCII, for which [replace], [slice] and the
    template literals of the code act on bytes. *)

From Stdlib Require Import ZArith Lia Ascii.
From stdpp Require Import gmap strings list fin_maps.

Local Open Scope string_scope.
Local Open Scope Z_scope.

(** ** Node's [crypto] primitives used by [routes/provision.js] *)

Module Crypto.

(** *** [Buffer.toString('base64url')] (RFC 4648, section 5, no padding) *)

Definition base64url_alphabet : string :=
  "ABCDEFGHIJKLMNOPQRSTUVWXYZabcdefghijklmnopqrstuvwxyz0123456789-_".

Definition b64char (n : Z) : ascii :=
  default "A"%char (String.get (Z.to_nat (n mod 64)) base64url_alphabet).

Definition byteZ (b : Byte.byte) : Z := Z.of_N (Byte.to_N b).

Fixpoint base64url (bs : list Byte.byte) : string :=
  match bs with
  | [] => ""
  | [a] =>
      let n := Z.shiftl (byteZ a) 16 in
      String (b64char (Z.shiftr n 18)) (String (b64char (Z.shiftr n 12)) "")
  | [a; b] =>
      let n := Z.lor (Z.shiftl (byteZ a) 16) (Z.shiftl (byteZ b) 8) in
      String (b64char (Z.shiftr n 18)) (String (b64char (Z.shiftr n 12))
        (String (b64char (Z.shiftr n 6)) ""))
  | a :: b :: c :: rest =>
      let n := Z.lor (Z.lor (Z.shiftl (byteZ a) 16) (Z.shiftl (byteZ b) 8)) (byteZ c) in
      String (b64char (Z.shiftr n 18)) (String (b64char (Z.shiftr n 12))
        (String (b64char (Z.shiftr n 6)) (String (b64char n)
          (base64url rest))))
  end.

(** [crypto.randomBytes(n)]: the operating system's generator is an input of
    the model, a stream of bytes of which the call takes the first [n]. *)
Definition randomBytes (n : nat) (source : nat → Byte.byte) : list Byte.byte :=
  map source (seq 0 n).

(** *** SHA-256 (FIPS 180-4) on 32-bit words held in [Z] *)

Definition w32 (x : Z) : Z := x mod 2 ^ 32.
Definition add32 (x y : Z) : Z := w32 (x + y).
Definition rotr (n x : Z) : Z :=
  Z.lor (Z.shiftr x n) (w32 (Z.shiftl x (32 - n))).
Definition not32 (x : Z) : Z := Z.lxor x 4294967295.

Definition Ch (x y z : Z) : Z := Z.lxor (Z.land x y) (Z.land (not32 x) z).
Definition Maj (x y z : Z) : Z :=
  Z.lxor (Z.lxor (Z.land x y) (Z.land x z)) (Z.land y z).
Definition Sigma0 (x : Z) : Z := Z.lxor (Z.lxor (rotr 2 x) (rotr 13 x)) (rotr 22 x).
Definition Sigma1 (x : Z) : Z := Z.lxor (Z.lxor (rotr 6 x) (rotr 11 x)) (rotr 25 x).
Definition sigma0 (x : Z) : Z := Z.lxor (Z.lxor (rotr 7 x) (rotr 18 x)) (Z.shiftr x 3).
Definition sigma1 (x : Z) : Z := Z.lxor (Z.lxor (rotr 17 x) (rotr 19 x)) (Z.shiftr x 10).

(** The round constants are the first 32 bits of the fractional parts of
    the cube roots of the first 64 primes, the initial state those of the
    square roots of the first 8: [floor (root (p * 2^(32 k))) mod 2^32]. *)
Definition is_prime (n : nat) : bool :=
  forallb (λ d, negb (n mod d =? 0)%nat) (seq 2 (n - 2)).

Definition primes : list Z := map Z.of_nat (List.filter is_prime (seq 2 310)).

(** The integer cube root, one bit at a time from bit 39 down. *)
Definition cube_root (n : Z) : Z :=
  fold_left (λ r b, let r' := r + 2 ^ Z.of_nat b in
                    if r' * r' * r' <=? n then r' else r)
            (rev (seq 0 40)) 0.

Definition K256 : list Z :=
  Eval vm_compute in map (λ p, w32 (cube_root (p * 2 ^ 96))) primes.

Record hstate := HState {
  h0 : Z; h1 : Z; h2 : Z; h3 : Z; h4 : Z; h5 : Z; h6 : Z; h7 : Z }.

Definition H256 : hstate :=
  Eval vm_compute in
    let h i := w32 (Z.sqrt (nth i primes 0 * 2 ^ 64)) in
    HState (h 0%nat) (h 1%nat) (h 2%nat) (h 3%nat) (h 4%nat) (h 5%nat) (h 6%nat) (h 7%nat).

(** Padding: a [0x80] byte, zeros up to 56 modulo 64, the bit length on
    eight bytes, big-endian. *)
Definition be_bytes (n : nat) (x : Z) : list Z :=
  map (λ i, Z.shiftr x (8 * Z.of_nat (n - 1 - i)) mod 256) (seq 0 n).

Definition pad (msg : list Z) : list Z :=
  let len := Z.of_nat (length msg) in
  let zeros := Z.to_nat ((55 - len) mod 64) in
  msg ++ [128] ++ replicate zeros 0 ++ be_bytes 8 (8 * len).

Fixpoint be_words (n : nat) (bs : list Z) : list Z :=
  match n, bs with
  | S n', a :: b :: c :: d :: rest =>
      Z.lor (Z.lor (Z.lor (Z.shiftl a 24) (Z.shiftl b 16)) (Z.shiftl c 8)) d
        :: be_words n' rest
  | _, _ => []
  end.

(** The message schedule, most recent word first. *)
Fixpoint schedule (n : nat) (w : list Z) : list Z :=
  match n with
  | O => w
  | S n' =>
      let x := add32 (add32 (sigma1 (nth 1 w 0)) (nth 6 w 0))
                     (add32 (sigma0 (nth 14 w 0)) (nth 15 w 0)) in
      schedule n' (x :: w)
  end.

Definition round (s : hstate) (kw : Z * Z) : hstate :=
  let t1 := add32 (add32 (add32 (h7 s) (Sigma1 (h4 s)))
                         (add32 (Ch (h4 s) (h5 s) (h6 s)) (fst kw))) (snd kw) in
  let t2 := add32 (Sigma0 (h0 s)) (Maj (h0 s) (h1 s) (h2 s)) in
  HState (add32 t1 t2) (h0 s) (h1 s) (h2 s) (add32 (h3 s) t1) (h4 s) (h5 s) (h6 s).

Definition compress (s : hstate) (block : list Z) : hstate :=
  let w := rev (schedule 48 (rev (be_words 16 block))) in
  let r := fold_left round (combine K256 w) s in
  HState (add32 (h0 s) (h0 r)) (add32 (h1 s) (h1 r)) (add32 (h2 s) (h2 r))
         (add32 (h3 s) (h3 r)) (add32 (h4 s) (h4 r)) (add32 (h5 s) (h5 r))
         (add32 (h6 s) (h6 r)) (add32 (h7 s) (h7 r)).

Fixpoint blocks (n : nat) (bs : list Z) : list (list Z) :=
  match n with
  | O => []
  | S n' => take 64 bs :: blocks n' (drop 64 bs)
  end.

Definition sha256 (msg : list Z) : hstate :=
  let p := pad msg in
  fold_left compress (blocks (length p / 64) p) H256.

(** *** [digest('hex')] *)

Definition hexchar (n : Z) : ascii :=
  default "0"%char (String.get (Z.to_nat (n mod 16)) "0123456789abcdef").

Definition hex32 (x : Z) (rest : string) : string :=
  String (hexchar (Z.shiftr x 28)) (String (hexchar (Z.shiftr x 24))
  (String (hexchar (Z.shiftr x 20)) (String (hexchar (Z.shiftr x 16))
  (String (hexchar (Z.shiftr x 12)) (String (hexchar (Z.shiftr x 8))
  (String (hexchar (Z.shiftr x 4)) (String (hexchar x) rest))))))).

Definition digest_hex (s : hstate) : string :=
  hex32 (h0 s) (hex32 (h1 s) (hex32 (h2 s) (hex32 (h3 s)
  (hex32 (h4 s) (hex32 (h5 s) (hex32 (h6 s) (hex32 (h7 s) ""))))))).

Definition string_bytes (s : string) : list Z :=
  map (λ c, Z.of_N (N_of_ascii c)) (String.list_ascii_of_string s).

(** [crypto.createHash('sha256').update(s).digest('hex')] *)
Definition sha256_hex (s : string) : string := digest_hex (sha256 (string_bytes s)).

End Crypto.

(** ** JavaScript values sent with [res.json] *)

#[local] Unset Elimination Schemes.
Inductive json : Type :=
  | JUndefined
  | JNull
  | JBool (b : bool)
  | JNum (n : Z)
  | JStr (s : string)
  | JArr (items : list json)
  | JObj (fields : list (string * json)).
#[local] Set Elimination Schemes.

(** [obj[k] = v], also the effect of [k: v] after a spread [...obj]: an
    existing property keeps its place and takes the new value. *)
Fixpoint set_field (k : string) (v : json) (fields : list (string * json))
  : list (string * json) :=
  match fields with
  | [] => [(k, v)]
  | (k', v') :: rest =>
      if String.eqb k' k then (k, v) :: rest else (k', v') :: set_field k v rest
  end.

Definition get_field (k : string) (j : json) : option json :=
  match j with
  | JObj fields => snd <$> List.find (λ kv, String.eqb (fst kv) k) fields
  | _ => None
  end.

(** [JSON.stringify]: a property whose value is [undefined] is left out, an
    [undefined] array element is written [null]. *)
Fixpoint stringify (j : json) : json :=
  match j with
  | JArr items =>
      JArr (map (λ x, match x with JUndefined => JNull | _ => stringify x end) items)
  | JObj fields =>
      JObj (flat_map (λ kv, match kv with
                            | (_, JUndefined) => []
                            | (k, v) => [(k, stringify v)]
                            end) fields)
  | _ => j
  end.

(** A property named [k] occurs somewhere in the value. *)
Fixpoint has_key (k : string) (j : json) : bool :=
  match j with
  | JArr items => existsb (has_key k) items
  | JObj fields =>
      existsb (λ kv, String.eqb (fst kv) k || has_key k (snd kv)) fields
  | _ => false
  end.

(** A property named [k] occurs somewhere in the value and holds something
    other than [null]. *)
Fixpoint exposes (k : string) (j : json) : bool :=
  match j with
  | JArr items => existsb (exposes k) items
  | JObj fields =>
      existsb (λ kv,
                 (String.eqb (fst kv) k
                  && match snd kv with JNull => false | _ => true end)
                 || exposes k (snd kv)) fields
  | _ => false
  end.

Definition opt_json (o : option string) : json :=
  match o with Some s => JStr s | None => JNull end.

Record Response := { status : Z; body : option json }.

(** [res.status(code).json(value)] *)
Definition res_json (code : Z) (value : json) : Response :=
  {| status := code; body := Some (stringify value) |}.

(** A property of the body of a response; a response without a body has none. *)
Definition body_has_key (k : string) (r : Response) : bool :=
  match body r with Some j => has_key k j | None => false end.
Definition body_exposes (k : string) (r : Response) : bool :=
  match body r with Some j => exposes k j | None => false end.
Definition body_field (k : string) (r : Response) : option json :=
  body r ≫= get_field k.

(** ** The data store *)

(** A row of the [devices] table, keyed by its [id] in the store. The columns
    are those the routes read and write. *)
Record Device := {
  project_id : string;
  name : string;
  hardware_type : string;
  device_token : string;
  is_provisioned : bool;
  mqtt_username : option string;
  mqtt_password_hash : option string;
  mac_address : option string;
  firmware_version : option string;
  provisioned_at : option string;
  created_at : string;
}.

(** A row of the [projects] table: the columns the device routes select. *)
Record Project := {
  user_id : string;
  project_name : string;
  slug : string;
}.

(** Modelled from the spec: the [device_channels] table is declared in the
    database only; a channel is a named data stream scoped to one device. *)
Record Channel := {
  channel_id : string;
  channel_device_id : string;
  channel_name : string;
}.

Record Store := {
  devices : gmap string Device;
  projects : gmap string Project;
  device_channels : list Channel;
}.

Definition with_devices (st : Store) (ds : gmap string Device) : Store :=
  {| devices := ds; projects := projects st; device_channels := device_channels st |}.

(** [error.code] of a failed store call: [PGRST116] is raised by [.single()]
    when the result is not exactly one row. *)
Inductive DbError := PGRST116 | DbFailure.

(** [.single()] *)
Definition single {A} (rows : list A) : DbError + A :=
  match rows with
  | [row] => inr row
  | _ => inl PGRST116
  end.

(** The row as [select('*')] returns it. *)
Definition row_fields (id : string) (d : Device) : list (string * json) :=
  [ ("id", JStr id);
    ("project_id", JStr (project_id d));
    ("name", JStr (name d));
    ("hardware_type", JStr (hardware_type d));
    ("device_token", JStr (device_token d));
    ("is_provisioned", JBool (is_provisioned d));
    ("mqtt_username", opt_json (mqtt_username d));
    ("mqtt_password_hash", opt_json (mqtt_password_hash d));
    ("mac_address", opt_json (mac_address d));
    ("firmware_version", opt_json (firmware_version d));
    ("provisioned_at", opt_json (provisioned_at d));
    ("created_at", JStr (created_at d)) ].

Definition channel_json (c : Channel) : json :=
  JObj [ ("id", JStr (channel_id c));
         ("device_id", JStr (channel_device_id c));
         ("name", JStr (channel_name c)) ].

(** Modelled from the spec: the row-level policies are declared in the
    database only. A project is owned by exactly one user identity, and a
    device is reached through the project that owns it. *)
Definition owns_project (st : Store) (uid pid : string) : bool :=
  match projects st !! pid with
  | Some p => bool_decide (user_id p = uid)
  | None => false
  end.

Definition visible_devices (st : Store) (uid : string) : list (string * Device) :=
  filter (λ row, owns_project st uid (project_id (snd row)) = true)
         (map_to_list (devices st)).

(** Modelled from the spec: the constraints of the [devices] table are
    declared in the database only. The provisioning token is a string, never
    null, and unique across all devices. *)
Definition token_in_use (st : Store) (id tok : string) : bool :=
  existsb (λ row, negb (String.eqb (fst row) id) && String.eqb (device_token (snd row)) tok)
          (map_to_list (devices st)).

(** [.from('devices').select('*, project:projects(user_id)').eq('device_token', t)]
    through the admin client, which bypasses the row-level policies. *)
Definition select_by_token (st : Store) (tok : string) : list (string * Device) :=
  filter (λ row, device_token (snd row) = tok) (map_to_list (devices st)).

(** [.from('devices')....eq('id', id).single()] through the client of user
    [uid]: the row keyed [id] if the policy lets the user reach it. *)
Definition user_device (st : Store) (uid id : string) : DbError + Device :=
  match devices st !! id with
  | Some d => if owns_project st uid (project_id d) then inr d else inl PGRST116
  | None => inl PGRST116
  end.

(** ** Requests and the environment of a request *)

(** The parts of an Express request the routes read, for a body that is a
    JSON object whose properties are strings: an absent property is [None].
    A property that is not a string (a number, an array, an object) is
    outside the model; the [isString] validators answer it with a 400 that
    echoes it. *)
Record Request := {
  headers_authorization : option string;
  params_id : string;
  query_project_id : option string;
  body_device_token : option string;
  body_mac_address : option string;
  body_firmware_version : option string;
  body_project_id : option string;
  body_name : option string;
  body_hardware_type : option string;
}.

(** What a request takes from outside the process: the process environment,
    the random generator, the clock, the outcome of the
    [generate_device_token] database function ([None] when the call yields no
    data), the id the store assigns to an inserted row, and whether the n-th
    store call of the request fails. A store call that fails returns an
    [error] and leaves the tables as they were. *)
Record Env := {
  EMQX_BROKER_HOST : option string;
  entropy : nat → Byte.byte;
  clock : string;
  generate_device_token : option string;
  assigned_id : string;
  store_fault : nat → bool;
}.

(** Outcome of [supabaseAdmin.auth.getUser(token)]. *)
Inductive AuthResult :=
  | AuthUser (uid : string)
  | AuthRejected
  | AuthThrown.

(** ** String helpers *)

(** [s.replace(/-/g, '')] *)
Fixpoint remove_hyphens (s : string) : string :=
  match s with
  | EmptyString => EmptyString
  | String c r =>
      if Ascii.eqb c "-" then remove_hyphens r else String c (remove_hyphens r)
  end.

(** [s.slice(0, n)] *)
Fixpoint slice_0 (n : nat) (s : string) : string :=
  match n, s with
  | S n', String c r => String c (slice_0 n' r)
  | _, _ => EmptyString
  end.

(** A falsy string is the empty one. *)
Definition truthy (s : string) : bool := negb (String.eqb s "").

Definition is_hex (c : ascii) : bool :=
  let n := nat_of_ascii c in
  ((48 <=? n) && (n <=? 57) || (65 <=? n) && (n <=? 70)
   || (97 <=? n) && (n <=? 102))%nat.

(** [/^([0-9A-Fa-f]{2}:){5}[0-9A-Fa-f]{2}$/]: [groups] pairs followed by a
    colon, then a last pair and the end of the string. *)
Fixpoint mac_groups (groups : nat) (s : string) : bool :=
  match s with
  | String a (String b rest) =>
      is_hex a && is_hex b &&
      match groups with
      | O => String.eqb rest ""
      | S n =>
          match rest with
          | String c rest' => Ascii.eqb c ":" && mac_groups n rest'
          | EmptyString => false
          end
      end
  | _ => false
  end.

Definition is_mac (s : string) : bool := mac_groups 5 s.

(** A byte that continues a character of several bytes. *)
Definition is_continuation (c : ascii) : bool :=
  let n := nat_of_ascii c in ((128 <=? n) && (n <=? 191))%nat.

(** The number of code points: the bytes that start a character. It is
    [str.length] less one for every surrogate pair. *)
Fixpoint code_points (s : string) : nat :=
  match s with
  | EmptyString => 0
  | String c r => (if is_continuation c then 0 else 1) + code_points r
  end.

(** The occurrences of the variation selectors U+FE0E and U+FE0F, in UTF-8
    [EF B8 8E] and [EF B8 8F]. *)
Fixpoint variation_selectors (s : string) : nat :=
  match s with
  | EmptyString => 0
  | String a r =>
      match r with
      | String b (String c _) =>
          if ((nat_of_ascii a =? 239) && (nat_of_ascii b =? 184)
              && ((nat_of_ascii c =? 142) || (nat_of_ascii c =? 143)))%nat
          then 1 else 0
      | _ => 0
      end + variation_selectors r
  end.

(** [len] of validator's [isLength]:
    [str.length - presentationSequences.length - surrogatePairs.length]. *)
Definition isLength_len (s : string) : nat :=
  code_points s - variation_selectors s.

(** [isLength({ min, max })] *)
Definition isLength (min max : nat) (s : string) : bool :=
  ((min <=? isLength_len s) && (isLength_len s <=? max))%nat.

(** The white space of [\s], which [trim()] strips: in ASCII the space and
    U+0009 to U+000D; *)
Definition is_space (c : ascii) : bool :=
  let n := nat_of_ascii c in
  ((n =? 32) || (9 <=? n) && (n <=? 13))%nat.

(** in two bytes U+00A0; *)
Definition is_space2 (a b : ascii) : bool :=
  ((nat_of_ascii a =? 194) && (nat_of_ascii b =? 160))%nat.

(** in three bytes U+1680, U+2000 to U+200A, U+2028, U+2029, U+202F, U+205F,
    U+3000 and U+FEFF. *)
Definition is_space3 (a b c : ascii) : bool :=
  let x := nat_of_ascii a in
  let y := nat_of_ascii b in
  let z := nat_of_ascii c in
  ((x =? 225) && (y =? 154) && (z =? 128)
   || (x =? 226) && (y =? 128)
      && ((128 <=? z) && (z <=? 138) || (z =? 168) || (z =? 169) || (z =? 175))
   || (x =? 226) && (y =? 129) && (z =? 159)
   || (x =? 227) && (y =? 128) && (z =? 128)
   || (x =? 239) && (y =? 187) && (z =? 191))%nat.

(** The string is one white-space character. *)
Definition is_space_char (s : string) : bool :=
  match s with
  | String a EmptyString => is_space a
  | String a (String b EmptyString) => is_space2 a b
  | String a (String b (String c EmptyString)) => is_space3 a b c
  | _ => false
  end.

(** [str.replace(/^\s+/g, '')] *)
Fixpoint ltrim (s : string) : string :=
  match s with
  | EmptyString => EmptyString
  | String a r =>
      if is_space a then ltrim r
      else
        match r with
        | String b r2 =>
            if is_space2 a b then ltrim r2
            else
              match r2 with
              | String c r3 => if is_space3 a b c then ltrim r3 else s
              | EmptyString => s
              end
        | EmptyString => s
        end
  end.

(** The loop of [rtrim]: white-space characters go from the end. *)
Fixpoint rtrim (s : string) : string :=
  match s with
  | EmptyString => EmptyString
  | String c r =>
      let r' := rtrim r in
      if is_space_char (String c r') then EmptyString else String c r'
  end.

(** The [trim()] sanitizer. *)
Definition trim (s : string) : string := rtrim (ltrim s).

(** [s.split(' ')] *)
Fixpoint split_space (s : string) : list string :=
  match s with
  | EmptyString => [EmptyString]
  | String c r =>
      if Ascii.eqb c " " then EmptyString :: split_space r
      else match split_space r with
           | w :: ws => String c w :: ws
           | [] => [String c EmptyString]
           end
  end.

(** ** express-validator *)

Record ValidationError := {
  ve_location : string;
  ve_path : string;
  ve_value : option string;
}.

Definition invalid (location path : string) (value : option string) : ValidationError :=
  {| ve_location := location; ve_path := path; ve_value := value |}.

(** An entry of [errors.array()]; [value] echoes the rejected value, a string
    of the request, and is left out when the property is missing. *)
Definition error_json (e : ValidationError) : json :=
  JObj [ ("type", JStr "field");
         ("value", match ve_value e with Some v => JStr v | None => JUndefined end);
         ("msg", JStr "Invalid value");
         ("path", JStr (ve_path e));
         ("location", JStr (ve_location e)) ].

(** The [validate] helper of the routers: [400] with the errors, or [next()]. *)
Definition validate {A} (errors : list ValidationError) (st : A)
    (next : Response * A) : Response * A :=
  match errors with
  | [] => next
  | _ => (res_json 400 (JObj [("errors", JArr (map error_json errors))]), st)
  end.

(** [body(path).isString().trim().isLength({ min: 1, max })]: a missing value
    fails both validators, a string is checked once trimmed. *)
Definition check_trimmed_length (path : string) (max : nat) (required : bool)
    (value : option string) : list ValidationError :=
  match value with
  | None =>
      if required then [invalid "body" path None; invalid "body" path None] else []
  | Some s =>
      if isLength 1 max (trim s) then []
      else [invalid "body" path (Some (trim s))]
  end.

(** ** [routes/provision.js] *)

(** [crypto.randomBytes(24).toString('base64url')] *)
Definition generateSecurePassword (source : nat → Byte.byte) : string :=
  Crypto.base64url (Crypto.randomBytes 24 source).

(** [crypto.createHash('sha256').update(password).digest('hex')] *)
Definition hashPassword (password : string) : string := Crypto.sha256_hex password.

(** The template literal that builds [mqttUsername]. *)
Definition mqttUsername (user_id id : string) : string :=
  "u_" +:+ slice_0 8 (remove_hyphens user_id) +:+ "_d_"
       +:+ slice_0 8 (remove_hyphens id).

Definition topicBase (userId deviceId : string) : string :=
  "u/" +:+ userId +:+ "/d/" +:+ deviceId.

(** The [topics] object of the success response. *)
Definition topics (userId deviceId : string) : json :=
  JObj [ ("subscribe", JStr (topicBase userId deviceId +:+ "/cmd/#"));
         ("state_prefix", JStr (topicBase userId deviceId +:+ "/state/"));
         ("telemetry_prefix", JStr (topicBase userId deviceId +:+ "/tel/")) ].

(** The validators of the route. On a missing [device_token] both [isString]
    and [isLength] fail. [firmware_version] is [optional().isString()], which
    holds of every body of the model, whose properties are strings. *)
Definition provision_checks (req : Request) : list ValidationError :=
  match body_device_token req with
  | None => [invalid "body" "device_token" None; invalid "body" "device_token" None]
  | Some t =>
      if isLength 64 64 t then []
      else [invalid "body" "device_token" (Some t)]
  end
  ++ match body_mac_address req with
     | None => []
     | Some m => if is_mac m then [] else [invalid "body" "mac_address" (Some m)]
     end.

Definition invalid_device_token : Response :=
  res_json 401 (JObj [ ("error", JStr "Invalid device token");
                       ("message", JStr "Device not found or token is incorrect") ]).

Definition already_provisioned : Response :=
  res_json 409 (JObj [ ("error", JStr "Already provisioned");
                       ("message", JStr "This device has already been provisioned. Use regenerate-token to re-provision.") ]).

Definition provisioning_failed : Response :=
  res_json 500 (JObj [ ("error", JStr "Provisioning failed");
                       ("message", JStr "Internal server error during provisioning") ]).

(** The row written by the [update] of the provisioning handler: a property
    that is [undefined] leaves its column as it was. *)
Definition provisioned_row (device : Device) (username password_hash : string)
    (mac_address' firmware_version' : option string) (at_ : string) : Device :=
  {| project_id := project_id device;
     name := name device;
     hardware_type := hardware_type device;
     device_token := device_token device;
     is_provisioned := true;
     mqtt_username := Some username;
     mqtt_password_hash := Some password_hash;
     mac_address := match mac_address' with Some m => Some m | None => mac_address device end;
     firmware_version :=
       match firmware_version' with Some v => Some v | None => firmware_version device end;
     provisioned_at := Some at_;
     created_at := created_at device |}.

(** [process.env.EMQX_BROKER_HOST || 'broker.emqx.io'] *)
Definition broker_host (env : Env) : string :=
  match EMQX_BROKER_HOST env with
  | Some h => if truthy h then h else "broker.emqx.io"
  | None => "broker.emqx.io"
  end.

(** The success response: the only one that carries the password. *)
Definition credentials (host username mqttPassword userId id name' : string) : Response :=
  res_json 200
    (JObj [ ("mqtt", JObj [ ("host", JStr host);
                            ("port", JNum 8883);
                            ("username", JStr username);
                            ("password", JStr mqttPassword);
                            ("client_id", JStr id);
                            ("use_tls", JBool true) ]);
            ("topics", topics userId id);
            ("device", JObj [ ("id", JStr id); ("name", JStr name') ]) ]).

(** The handler proper, once the body has passed validation. Store call 0 is
    the lookup by token, store call 1 the update. A missing [project] makes
    [device.project.user_id] throw, which the [catch] turns into the [500]. *)
Definition provision_handler (env : Env) (st : Store) (device_token' : string)
    (mac_address' firmware_version' : option string) : Response * Store :=
  match (if store_fault env 0%nat then inl DbFailure
         else single (select_by_token st device_token')) with
  | inl _ => (invalid_device_token, st)
  | inr (id, device) =>
      if is_provisioned device then (already_provisioned, st)
      else
        match projects st !! project_id device with
        | None => (provisioning_failed, st)
        | Some project =>
            let username := mqttUsername (user_id project) id in
            let mqttPassword := generateSecurePassword (entropy env) in
            if store_fault env 1%nat then (provisioning_failed, st)
            else
              let row := provisioned_row device username (hashPassword mqttPassword)
                           mac_address' firmware_version' (clock env) in
              (credentials (broker_host env) username mqttPassword
                           (user_id project) id (name device),
               with_devices st (<[id := row]> (devices st)))
        end
  end.

(** [POST /api/provision]: the router has no [authenticate] middleware, the
    [Authorization] header is never read. The handler runs only when the
    checks pass, and then [device_token] is a string: the [None] branch below
    is never taken. *)
Definition provision (env : Env) (st : Store) (req : Request) : Response * Store :=
  validate (provision_checks req) st
    match body_device_token req with
    | Some t =>
        provision_handler env st t (body_mac_address req) (body_firmware_version req)
    | None => (provisioning_failed, st)
    end.

(** ** [middleware/auth.js] and [routes/devices.js] *)

Section DeviceRoutes.

(** The [isUUID] validator of the installed validator library, and the
    identity provider behind [supabaseAdmin.auth.getUser]. *)
Variable isUUID : string → bool.
Variable getUser : string → AuthResult.

Definition unauthorized (message : string) : Response :=
  res_json 401 (JObj [ ("error", JStr "Unauthorized"); ("message", JStr message) ]).

(** [authenticate]: the response that ends the request, or the id of the
    verified user, whose client the route then uses. *)
Definition authenticate (req : Request) : Response + string :=
  match headers_authorization req with
  | None => inl (unauthorized "Missing or invalid Authorization header")
  | Some authHeader =>
      if negb (String.prefix "Bearer " authHeader)
      then inl (unauthorized "Missing or invalid Authorization header")
      else
        let token := nth 1 (split_space authHeader) "" in
        match getUser token with
        | AuthUser uid => inr uid
        | AuthRejected => inl (unauthorized "Invalid or expired token")
        | AuthThrown =>
            inl (res_json 500 (JObj [ ("error", JStr "Internal Server Error");
                                      ("message", JStr "Authentication failed") ]))
        end
  end.

(** [router.use(authenticate)] *)
Definition authenticated (req : Request) (st : Store)
    (next : string → Response * Store) : Response * Store :=
  match authenticate req with
  | inl r => (r, st)
  | inr uid => next uid
  end.

Definition failed (code : Z) (message : string) : Response :=
  res_json code (JObj [("error", JStr message)]).

Definition check_id (req : Request) : list ValidationError :=
  if isUUID (params_id req) then [] else [invalid "params" "id" (Some (params_id req))].

(** The embedded [project:projects(id, name, slug)] as user [uid] sees it. *)
Definition project_json (st : Store) (uid pid : string) : json :=
  match projects st !! pid with
  | Some p =>
      if bool_decide (user_id p = uid)
      then JObj [ ("id", JStr pid); ("name", JStr (project_name p)); ("slug", JStr (slug p)) ]
      else JNull
  | None => JNull
  end.

(** [{ ...device, device_token: undefined, mqtt_password_hash: undefined }] *)
Definition sanitize (fields : list (string * json)) : json :=
  JObj (set_field "mqtt_password_hash" JUndefined
          (set_field "device_token" JUndefined fields)).

(** [.order('created_at', { ascending: false })] *)
Fixpoint insert_desc (row : string * Device) (rows : list (string * Device))
  : list (string * Device) :=
  match rows with
  | [] => [row]
  | r :: rest =>
      if String.leb (created_at (snd r)) (created_at (snd row))
      then row :: rows else r :: insert_desc row rest
  end.

Definition order_desc (rows : list (string * Device)) : list (string * Device) :=
  foldr insert_desc [] rows.

(** [GET /api/devices] *)
Definition list_devices (env : Env) (st : Store) (req : Request) : Response * Store :=
  authenticated req st (λ uid,
    validate (match query_project_id req with
              | Some p => if isUUID p then [] else [invalid "query" "project_id" (Some p)]
              | None => []
              end) st
      (if store_fault env 0%nat then (failed 500 "Failed to fetch devices", st)
       else
         let rows := order_desc (visible_devices st uid) in
         let data :=
           match query_project_id req with
           | Some p =>
               if truthy p
               then filter (λ row, project_id (snd row) = p) rows
               else rows
           | None => rows
           end in
         (res_json 200
            (JObj [("devices",
                    JArr (map (λ row,
                            sanitize (row_fields (fst row) (snd row)
                                      ++ [("project",
                                           project_json st uid (project_id (snd row)))]))
                            data))]),
          st))).

(** [GET /api/devices/:id] *)
Definition get_device (env : Env) (st : Store) (req : Request) : Response * Store :=
  authenticated req st (λ uid,
    validate (check_id req) st
      match (if store_fault env 0%nat then inl DbFailure
             else user_device st uid (params_id req)) with
      | inl PGRST116 => (failed 404 "Device not found", st)
      | inl DbFailure => (failed 500 "Failed to fetch device", st)
      | inr d =>
          let id := params_id req in
          (res_json 200
             (JObj [("device",
                     sanitize (row_fields id d
                               ++ [ ("project", project_json st uid (project_id d));
                                    ("channels",
                                     JArr (map channel_json
                                             (filter (λ c, channel_device_id c = id)
                                                     (device_channels st)))) ]))]),
           st)
      end).

(** Modelled from the spec: the column defaults of an inserted row are
    declared in the database only. A device starts unprovisioned, with no
    broker credentials. *)
Definition inserted_row (project_id' name' hardware_type' device_token' created : string)
  : Device :=
  {| project_id := project_id'; name := name'; hardware_type := hardware_type';
     device_token := device_token'; is_provisioned := false;
     mqtt_username := None; mqtt_password_hash := None;
     mac_address := None; firmware_version := None;
     provisioned_at := None; created_at := created |}.

(** [POST /api/devices]. Store call 0 selects the project, store call 1
    inserts the row; the insert fails on a null or already used token and on
    an id already present. The handler runs only when the checks pass, and
    then [project_id] and [name] are strings: the last branch below is never
    taken. *)
Definition create_device (env : Env) (st : Store) (req : Request) : Response * Store :=
  authenticated req st (λ uid,
    validate ((match body_project_id req with
               | Some p => if isUUID p then [] else [invalid "body" "project_id" (Some p)]
               | None => [invalid "body" "project_id" None]
               end)
              ++ check_trimmed_length "name" 100 true (body_name req)) st
      match body_project_id req, body_name req with
      | Some project_id', Some name' =>
          if store_fault env 0%nat || negb (owns_project st uid project_id')
          then (failed 404 "Project not found", st)
          else
            let hardware_type' :=
              match body_hardware_type req with
              | Some h => if truthy (trim h) then trim h else "ESP32"
              | None => "ESP32"
              end in
            match generate_device_token env with
            | Some deviceToken =>
                let id := assigned_id env in
                if store_fault env 1%nat
                   || token_in_use st id deviceToken
                   || bool_decide (is_Some (devices st !! id))
                then (failed 500 "Failed to create device", st)
                else
                  let row := inserted_row project_id' (trim name') hardware_type'
                               deviceToken (clock env) in
                  (res_json 201
                     (JObj [ ("device",
                              JObj (set_field "mqtt_password_hash" JUndefined
                                      (row_fields id row)));
                             ("message",
                              JStr "Save this device_token! It will not be shown again.") ]),
                   with_devices st (<[id := row]> (devices st)))
            | None => (failed 500 "Failed to create device", st)
            end
      | _, _ => (failed 500 "Failed to create device", st)
      end).

(** The [updates] object of the PATCH route, applied to a row. *)
Definition patch_updates (req : Request) : list (string * string) :=
  match body_name req with
  | Some n => if truthy (trim n) then [("name", trim n)] else []
  | None => []
  end
  ++ match body_hardware_type req with
     | Some h => if truthy (trim h) then [("hardware_type", trim h)] else []
     | None => []
     end.

Definition apply_update (d : Device) (u : string * string) : Device :=
  if String.eqb (fst u) "name" then
    {| project_id := project_id d; name := snd u; hardware_type := hardware_type d;
       device_token := device_token d; is_provisioned := is_provisioned d;
       mqtt_username := mqtt_username d; mqtt_password_hash := mqtt_password_hash d;
       mac_address := mac_address d; firmware_version := firmware_version d;
       provisioned_at := provisioned_at d; created_at := created_at d |}
  else if String.eqb (fst u) "hardware_type" then
    {| project_id := project_id d; name := name d; hardware_type := snd u;
       device_token := device_token d; is_provisioned := is_provisioned d;
       mqtt_username := mqtt_username d; mqtt_password_hash := mqtt_password_hash d;
       mac_address := mac_address d; firmware_version := firmware_version d;
       provisioned_at := provisioned_at d; created_at := created_at d |}
  else d.

(** [PATCH /api/devices/:id] *)
Definition patch_device (env : Env) (st : Store) (req : Request) : Response * Store :=
  authenticated req st (λ uid,
    validate (check_id req
              ++ check_trimmed_length "name" 100 false (body_name req)) st
      (let updates := patch_updates req in
       if (length updates =? 0)%nat
       then (failed 400 "No valid fields to update", st)
       else
         match (if store_fault env 0%nat then inl DbFailure
                else user_device st uid (params_id req)) with
         | inl PGRST116 => (failed 404 "Device not found", st)
         | inl DbFailure => (failed 500 "Failed to update device", st)
         | inr d =>
             let id := params_id req in
             let row := fold_left apply_update updates d in
             (res_json 200 (JObj [("device", sanitize (row_fields id row))]),
              with_devices st (<[id := row]> (devices st)))
         end)).

(** [DELETE /api/devices/:id]: the deletion of a row the user reaches takes
    its channels with it; the response has no body. *)
Definition delete_device (env : Env) (st : Store) (req : Request) : Response * Store :=
  authenticated req st (λ uid,
    validate (check_id req) st
      (if store_fault env 0%nat then (failed 500 "Failed to delete device", st)
       else
         let id := params_id req in
         ({| status := 204; body := None |},
          match user_device st uid id with
          | inr _ =>
              {| devices := delete id (devices st);
                 projects := projects st;
                 device_channels :=
                   filter (λ c, channel_device_id c ≠ id) (device_channels st) |}
          | inl _ => st
          end))).

(** The row written by the [update] of the regeneration route. *)
Definition regenerated_row (d : Device) (newToken : string) : Device :=
  {| project_id := project_id d; name := name d; hardware_type := hardware_type d;
     device_token := newToken; is_provisioned := false;
     mqtt_username := None; mqtt_password_hash := None;
     mac_address := mac_address d; firmware_version := firmware_version d;
     provisioned_at := provisioned_at d; created_at := created_at d |}.

(** [POST /api/devices/:id/regenerate-token]. The update of a row the user
    reaches fails on a null or already used token. *)
Definition regenerate_token (env : Env) (st : Store) (req : Request) : Response * Store :=
  authenticated req st (λ uid,
    validate (check_id req) st
      (let id := params_id req in
       match (if store_fault env 0%nat then inl DbFailure
              else
                match user_device st uid id with
                | inl e => inl e
                | inr d =>
                    match generate_device_token env with
                    | Some newToken =>
                        if token_in_use st id newToken then inl DbFailure
                        else inr (regenerated_row d newToken)
                    | None => inl DbFailure
                    end
                end) with
       | inl PGRST116 => (failed 404 "Device not found", st)
       | inl DbFailure => (failed 500 "Failed to regenerate token", st)
       | inr row =>
           (res_json 200
              (JObj [ ("device", JObj (row_fields id row));
                      ("message",
                       JStr "New device_token generated. Save it! The old token is now invalid.") ]),
            with_devices st (<[id := row]> (devices st)))
       end)).

(** The operations of the API on devices. *)
Inductive Operation :=
  | Provision | ListDevices | GetDevice | CreateDevice
  | PatchDevice | DeleteDevice | RegenerateToken.

Definition run (op : Operation) (env : Env) (st : Store) (req : Request)
  : Response * Store :=
  match op with
  | Provision => provision env st req
  | ListDevices => list_devices env st req
  | GetDevice => get_device env st req
  | CreateDevice => create_device env st req
  | PatchDevice => patch_device env st req
  | DeleteDevice => delete_device env st req
  | RegenerateToken => regenerate_token env st req
  end.

End DeviceRoutes.

(** ** [optionalAuth] of [middleware/auth.js] *)

Section OptionalAuth.

Variable getUser : string → AuthResult.

(** [optionalAuth]: a request without a bearer header goes on with no user
    ([req.user = null]); one with a bearer header is handed to
    [authenticate]. The result is the response that ends the request, or the
    user the route sees, if any. *)
Definition optionalAuth (req : Request) : Response + option string :=
  match headers_authorization req with
  | None => inr None
  | Some authHeader =>
      if negb (String.prefix "Bearer " authHeader) then inr None
      else match authenticate getUser req with
           | inl r => inl r
           | inr uid => inr (Some uid)
           end
  end.

End OptionalAuth.

(** ** [routes/projects.js] *)

(** The lower case of an ASCII character. *)
Definition toLowerCase_char (c : ascii) : ascii :=
  let n := nat_of_ascii c in
  if ((65 <=? n) && (n <=? 90))%nat then ascii_of_nat (n + 32) else c.

(** U+0130, whose lower case is [i] and U+0307, and U+212A, whose lower case
    is [k], in UTF-8. *)
Definition is_dotted_I (a b : ascii) : bool :=
  Ascii.eqb a "196" && Ascii.eqb b "176".

Definition is_kelvin (a b c : ascii) : bool :=
  Ascii.eqb a "226" && Ascii.eqb b "132" && Ascii.eqb c "170".

(** [s.toLowerCase()], as far as [generateSlug] can tell: the letters of
    ASCII, and the two characters outside ASCII whose lower case has an
    ASCII letter. Every other character outside ASCII has a lower case
    outside ASCII and is left as it is: the next pass of [generateSlug]
    replaces both by a hyphen. *)
Fixpoint toLowerCase (s : string) : string :=
  match s with
  | EmptyString => EmptyString
  | String a r =>
      match r with
      | String b r2 =>
          if is_dotted_I a b
          then String "i" (String "204" (String "135" (toLowerCase r2)))
          else
            match r2 with
            | String c r3 =>
                if is_kelvin a b c then String "k" (toLowerCase r3)
                else String (toLowerCase_char a) (toLowerCase r)
            | EmptyString => String (toLowerCase_char a) (toLowerCase r)
            end
      | EmptyString => String (toLowerCase_char a) EmptyString
      end
  end.

(** The class [[a-z0-9]]. *)
Definition is_slug_char (c : ascii) : bool :=
  let n := nat_of_ascii c in
  ((97 <=? n) && (n <=? 122) || (48 <=? n) && (n <=? 57))%nat.

(** [s.replace(/[^a-z0-9]+/g, '-')]: every maximal run of other characters
    becomes one hyphen; [in_run] says the previous character was in a run. *)
Fixpoint replace_runs (in_run : bool) (s : string) : string :=
  match s with
  | EmptyString => EmptyString
  | String c r =>
      if is_slug_char c then String c (replace_runs false r)
      else if in_run then replace_runs true r
      else String "-" (replace_runs true r)
  end.

(** [s.replace(/^-|-$/g, '')]: a hyphen at the start goes, then a hyphen at
    the end. *)
Definition strip_leading_hyphen (s : string) : string :=
  match s with
  | String c r => if Ascii.eqb c "-" then r else s
  | EmptyString => EmptyString
  end.

Fixpoint strip_trailing_hyphen (s : string) : string :=
  match s with
  | EmptyString => EmptyString
  | String c r =>
      if Ascii.eqb c "-" && String.eqb r "" then EmptyString
      else String c (strip_trailing_hyphen r)
  end.

(** [generateSlug(name)]; [substring(0, 50)] is [slice(0, 50)]. *)
Definition generateSlug (name' : string) : string :=
  slice_0 50
    (strip_trailing_hyphen
       (strip_leading_hyphen (replace_runs false (toLowerCase name')))).

(** The properties of [req.body] the project routes read beside [name]. *)
Record ProjectBody := {
  body_slug : option string;
  body_description : option string;
}.

(** The object given to [.insert] by the creation route; a [description]
    that is [undefined] is left out of it. *)
Record ProjectInsert := {
  insert_user_id : string;
  insert_name : string;
  insert_slug : string;
  insert_description : option string;
}.

(** The [updates] object given to [.update] by the PATCH route, and the id
    of [.eq('id', req.params.id)]. *)
Record ProjectUpdate := {
  update_id : string;
  update_fields : list (string * string);
}.

(** What a project route does about the store. The [projects] table and its
    policies are declared in the database, so the store is not part of the
    model of these routes: a route answers at once, or it makes its one call
    through the client of the authenticated user and answers from the
    outcome, an [error.code] or the row. *)
Inductive Plan (Call : Type) : Type :=
  | Answer (r : Response)
  | Ask (uid : string) (call : Call) (answer : string + json → Response).

Arguments Answer {Call} r.
Arguments Ask {Call} uid call answer.

(** The response of a route against a store that answers each call. *)
Definition run_plan {Call : Type} (store : string → Call → string + json)
    (plan : Plan Call) : Response :=
  match plan with
  | Answer r => r
  | Ask uid call answer => answer (store uid call)
  end.

(** The [validate] helper of the router, for a route that is a plan. *)
Definition validated {Call : Type} (errors : list ValidationError) (next : Plan Call)
  : Plan Call :=
  match errors with
  | [] => next
  | _ => Answer (res_json 400 (JObj [("errors", JArr (map error_json errors))]))
  end.

(** The checks of [name] and [slug]; [description] is
    [optional().isString().trim()], which a string always passes. *)
Definition project_checks (name_required : bool) (req : Request) (more : ProjectBody)
  : list ValidationError :=
  check_trimmed_length "name" 100 name_required (body_name req)
  ++ check_trimmed_length "slug" 50 false (body_slug more).

(** [req.body.slug || generateSlug(name)], on the sanitized body. *)
Definition project_slug (name' : string) (more : ProjectBody) : string :=
  match body_slug more with
  | Some s => if truthy (trim s) then trim s else generateSlug name'
  | None => generateSlug name'
  end.

(** The [updates] object of the PATCH route: [name] and [slug] when truthy,
    [description] whenever it is not [undefined]. *)
Definition project_updates (req : Request) (more : ProjectBody) : list (string * string) :=
  match body_name req with
  | Some n => if truthy (trim n) then [("name", trim n)] else []
  | None => []
  end
  ++ match body_slug more with
     | Some s => if truthy (trim s) then [("slug", trim s)] else []
     | None => []
     end
  ++ match body_description more with
     | Some d => [("description", trim d)]
     | None => []
     end.

Section ProjectRoutes.

Variable isUUID : string → bool.
Variable getUser : string → AuthResult.

(** [POST /api/projects]. The handler runs only when the checks pass, and
    then [name] is a string: the [None] branch below is never taken. *)
Definition create_project (req : Request) (more : ProjectBody) : Plan ProjectInsert :=
  match authenticate getUser req with
  | inl r => Answer r
  | inr uid =>
      validated (project_checks true req more)
        match body_name req with
        | Some n =>
            let name' := trim n in
            Ask uid {| insert_user_id := uid;
                       insert_name := name';
                       insert_slug := project_slug name' more;
                       insert_description := trim <$> body_description more |}
              (λ outcome,
                 match outcome with
                 | inl code =>
                     if String.eqb code "23505"
                     then failed 409 "A project with this slug already exists"
                     else failed 500 "Failed to create project"
                 | inr data => res_json 201 (JObj [("project", data)])
                 end)
        | None => Answer (failed 500 "Failed to create project")
        end
  end.

(** [PATCH /api/projects/:id] *)
Definition patch_project (req : Request) (more : ProjectBody) : Plan ProjectUpdate :=
  match authenticate getUser req with
  | inl r => Answer r
  | inr uid =>
      validated (check_id isUUID req ++ project_checks false req more)
        (let updates := project_updates req more in
         if (length updates =? 0)%nat
         then Answer (failed 400 "No valid fields to update")
         else
           Ask uid {| update_id := params_id req; update_fields := updates |}
             (λ outcome,
                match outcome with
                | inl code =>
                    if String.eqb code "PGRST116" then failed 404 "Project not found"
                    else if String.eqb code "23505" then failed 409 "Slug already exists"
                    else failed 500 "Failed to update project"
                | inr data => res_json 200 (JObj [("project", data)])
                end))
  end.

End ProjectRoutes.

(** * The vocabulary of the properties *)

(** ** Responses *)

(** The [password] and the [client_id] of the [mqtt] object of a response. *)
Definition response_password (r : Response) : option json :=
  body_field "mqtt" r ≫= get_field "password".

Definition response_client_id (r : Response) : option json :=
  body_field "mqtt" r ≫= get_field "client_id".

(** How many properties of the value are named [k]. *)
Fixpoint count_key (k : string) (j : json) : nat :=
  match j with
  | JArr items => fold_right (λ x n, count_key k x + n)%nat 0%nat items
  | JObj fields =>
      fold_right (λ kv n, (if String.eqb (fst kv) k then 1 else 0)
                          + count_key k (snd kv) + n)%nat 0%nat fields
  | _ => 0%nat
  end.

(** The property names that carry a secret. *)
Definition secret (k : string) : Prop :=
  k = "mqtt_password_hash" ∨ k = "device_token" ∨ k = "password".

(** The characters of [base64url]: letters, digits, [-] and [_]. *)
Definition url_safe (c : ascii) : bool :=
  let n := nat_of_ascii c in
  ((48 <=? n) && (n <=? 57) || (65 <=? n) && (n <=? 90)
   || (97 <=? n) && (n <=? 122) || (n =? 45) || (n =? 95))%nat.

(** The characters of [digest('hex')]: digits and [a] to [f]. *)
Definition lower_hex (c : ascii) : bool :=
  let n := nat_of_ascii c in
  ((48 <=? n) && (n <=? 57) || (97 <=? n) && (n <=? 102))%nat.

Fixpoint string_forall (p : ascii → bool) (s : string) : bool :=
  match s with
  | EmptyString => true
  | String c r => p c && string_forall p r
  end.

(** ** Requests *)

(** The body of a provisioning request that passes the checks: a token of
    64 characters as [isLength] counts them, and a MAC address of the
    six-octet form if there is one. *)
Definition valid_body (req : Request) (tok : string) : Prop :=
  body_device_token req = Some tok
  ∧ isLength_len tok = 64%nat
  ∧ ∀ m, body_mac_address req = Some m → is_mac m = true.

(** The same request under another [Authorization] header. *)
Definition with_authorization (authorization : option string) (req : Request) : Request :=
  {| headers_authorization := authorization;
     params_id := params_id req;
     query_project_id := query_project_id req;
     body_device_token := body_device_token req;
     body_mac_address := body_mac_address req;
     body_firmware_version := body_firmware_version req;
     body_project_id := body_project_id req;
     body_name := body_name req;
     body_hardware_type := body_hardware_type req |}.

(** ** Stores *)

(** Device [id], row [d], is the one device that holds token [tok]. *)
Definition sole_holder (st : Store) (tok id : string) (d : Device) : Prop :=
  devices st !! id = Some d
  ∧ device_token d = tok
  ∧ ∀ id' d', devices st !! id' = Some d' → device_token d' = tok → id' = id.

(** No two devices hold the same token. *)
Definition unique_tokens (st : Store) : Prop :=
  ∀ i j di dj,
    devices st !! i = Some di → devices st !! j = Some dj →
    device_token di = device_token dj → i = j.

(** [is_provisioned] is true exactly when both broker credentials are set. *)
Definition credentials_invariant (d : Device) : Prop :=
  is_provisioned d = true ↔ mqtt_username d ≠ None ∧ mqtt_password_hash d ≠ None.

Definition store_invariant (st : Store) : Prop :=
  ∀ id d, devices st !! id = Some d → credentials_invariant d.

(** The columns the PATCH route leaves alone. *)
Definition same_but_name_and_hardware_type (d d' : Device) : Prop :=
  project_id d' = project_id d
  ∧ device_token d' = device_token d
  ∧ is_provisioned d' = is_provisioned d
  ∧ mqtt_username d' = mqtt_username d
  ∧ mqtt_password_hash d' = mqtt_password_hash d
  ∧ mac_address d' = mac_address d
  ∧ firmware_version d' = firmware_version d
  ∧ provisioned_at d' = provisioned_at d
  ∧ created_at d' = created_at d.

(** ** Outcomes *)

(** The five outcomes of [provision]. *)
Inductive ProvisionOutcome (env : Env) (st : Store) (req : Request)
  : Response * Store → Prop :=
  | Provision_400 e errors :
      provision_checks req = e :: errors →
      ProvisionOutcome env st req
        (res_json 400 (JObj [("errors", JArr (map error_json (e :: errors)))]), st)
  | Provision_401 :
      ProvisionOutcome env st req (invalid_device_token, st)
  | Provision_409 tok id device :
      body_device_token req = Some tok →
      sole_holder st tok id device → is_provisioned device = true →
      ProvisionOutcome env st req (already_provisioned, st)
  | Provision_500 :
      ProvisionOutcome env st req (provisioning_failed, st)
  | Provision_200 tok id device project :
      body_device_token req = Some tok →
      provision_checks req = [] →
      sole_holder st tok id device →
      is_provisioned device = false →
      projects st !! project_id device = Some project →
      store_fault env 0%nat = false →
      store_fault env 1%nat = false →
      ProvisionOutcome env st req
        (credentials (broker_host env) (mqttUsername (user_id project) id)
                     (generateSecurePassword (entropy env))
                     (user_id project) id (name device),
         with_devices st
           (<[id := provisioned_row device (mqttUsername (user_id project) id)
                      (hashPassword (generateSecurePassword (entropy env)))
                      (body_mac_address req) (body_firmware_version req) (clock env)]>
              (devices st))).

(** What an operation may do to the store: nothing, write one row of the
    [devices] table, or delete one with its channels. *)
Inductive Effect (st : Store) (req : Request) : Operation → Store → Prop :=
  | Effect_none op : Effect st req op st
  | Effect_provision id device username hash mac_address' fw at_ :
      devices st !! id = Some device →
      Effect st req Provision
        (with_devices st
           (<[id := provisioned_row device username hash mac_address' fw at_]> (devices st)))
  | Effect_create id p n h t c :
      devices st !! id = None →
      token_in_use st id t = false →
      Effect st req CreateDevice
        (with_devices st (<[id := inserted_row p n h t c]> (devices st)))
  | Effect_patch d :
      devices st !! params_id req = Some d →
      Effect st req PatchDevice
        (with_devices st
           (<[params_id req := fold_left apply_update (patch_updates req) d]> (devices st)))
  | Effect_delete d channels :
      devices st !! params_id req = Some d →
      Effect st req DeleteDevice
        {| devices := delete (params_id req) (devices st);
           projects := projects st; device_channels := channels |}
  | Effect_regenerate d tok :
      devices st !! params_id req = Some d →
      token_in_use st (params_id req) tok = false →
      Effect st req RegenerateToken
        (with_devices st (<[params_id req := regenerated_row d tok]> (devices st))).

(** The stores the API can reach from one without devices. *)
Inductive reachable (isUUID : string → bool) (getUser : string → AuthResult)
  : Store → Prop :=
  | reachable_empty st : devices st = ∅ → reachable isUUID getUser st
  | reachable_run st op env req :
      reachable isUUID getUser st →
      reachable isUUID getUser (run isUUID getUser op env st req).2.

(** ** Decoding base64url *)

(** The place of a character in a string, counted from 0. *)
Fixpoint index_of (c : ascii) (s : string) : Z :=
  match s with
  | EmptyString => 0
  | String d r => if Ascii.eqb c d then 0 else 1 + index_of c r
  end.

Definition b64index (c : ascii) : Z := index_of c Crypto.base64url_alphabet.

Definition to_byte (n : Z) : Byte.byte :=
  default Byte.x00 (Byte.of_N (Z.to_N (n mod 256))).

(** The bytes a base64url text without padding stands for: four characters
    give three bytes, a last group of three gives two, one of two gives one. *)
Fixpoint base64url_decode (s : string) : list Byte.byte :=
  match s with
  | String c1 (String c2 (String c3 (String c4 rest))) =>
      let n := b64index c1 * 262144 + b64index c2 * 4096 + b64index c3 * 64
               + b64index c4 in
      to_byte (n / 65536) :: to_byte (n / 256) :: to_byte n :: base64url_decode rest
  | String c1 (String c2 (String c3 EmptyString)) =>
      let n := b64index c1 * 262144 + b64index c2 * 4096 + b64index c3 * 64 in
      [to_byte (n / 65536); to_byte (n / 256)]
  | String c1 (String c2 EmptyString) =>
      let n := b64index c1 * 262144 + b64index c2 * 4096 in
      [to_byte (n / 65536)]
  | _ => []
  end.

(** ** The words of the specification *)

(** The characters of a string other than hyphens, in their order. *)
Definition hyphens_removed (s : string) : string :=
  String.string_of_list_ascii
    (List.filter (λ c, negb (Ascii.eqb c "-")) (String.list_ascii_of_string s)).

(** The first [n] characters of a string, all of them when it has fewer. *)
Definition first_characters (n : nat) (s : string) : string :=
  String.string_of_list_ascii (firstn n (String.list_ascii_of_string s)).

(** The same environment with another random source. *)
Definition with_entropy (source : nat → Byte.byte) (env : Env) : Env :=
  {| EMQX_BROKER_HOST := EMQX_BROKER_HOST env;
     entropy := source;
     clock := clock env;
     generate_device_token := generate_device_token env;
     assigned_id := assigned_id env;
     store_fault := store_fault env |}.

(** The provisioning request of the scenario with another MAC address. *)
Definition with_mac_address (m : string) (req : Request) : Request :=
  {| headers_authorization := headers_authorization req;
     params_id := params_id req;
     query_project_id := query_project_id req;
     body_device_token := body_device_token req;
     body_mac_address := Some m;
     body_firmware_version := body_firmware_version req;
     body_project_id := body_project_id req;
     body_name := body_name req;
     body_hardware_type := body_hardware_type req |}.

(** [n] copies of a string, one after the other. *)
Fixpoint copies (n : nat) (s : string) : string :=
  match n with
  | O => EmptyString
  | S n' => s +:+ copies n' s
  end.

(** ** Values and stored hashes *)



(** The row with another stored hash. *)
Definition with_hash (h : option string) (d : Device) : Device :=
  {| project_id := project_id d; name := name d; hardware_type := hardware_type d;
     device_token := device_token d; is_provisioned := is_provisioned d;
     mqtt_username := mqtt_username d; mqtt_password_hash := h;
     mac_address := mac_address d; firmware_version := firmware_version d;
     provisioned_at := provisioned_at d; created_at := created_at d |}.


(** ** The scenario of the specification *)

(** One owner, one project, one device that holds the token [aaaa...]. *)
Module Scenario.

Definition owner : string := "11111111-1111-4111-8111-111111111111".
Definition project : string := "33333333-3333-4333-8333-333333333333".
Definition device : string := "22222222-2222-4222-8222-222222222222".
Definition token : string :=
  "aaaaaaaaaaaaaaaaaaaaaaaaaaaaaaaaaaaaaaaaaaaaaaaaaaaaaaaaaaaaaaaa".
Definition other_token : string :=
  "bbbbbbbbbbbbbbbbbbbbbbbbbbbbbbbbbbbbbbbbbbbbbbbbbbbbbbbbbbbbbbbb".

Definition row : Device :=
  {| project_id := project; name := "Living Room Plug"; hardware_type := "ESP32";
     device_token := token; is_provisioned := false;
     mqtt_username := None; mqtt_password_hash := None;
     mac_address := None; firmware_version := None;
     provisioned_at := None; created_at := "2025-01-01T00:00:00.000Z" |}.

Definition project_row : Project :=
  {| user_id := owner; project_name := "Smart Home"; slug := "smart-home" |}.

Definition store : Store :=
  {| devices := {[ device := row ]};
     projects := {[ project := project_row ]};
     device_channels := [ {| channel_id := "c1"; channel_device_id := device;
                             channel_name := "relay" |} ] |}.

(** The same project before any device is registered. *)
Definition store_without_devices : Store :=
  {| devices := ∅; projects := {[ project := project_row ]}; device_channels := [] |}.

Definition env : Env :=
  {| EMQX_BROKER_HOST := None;
     entropy := λ n, default Byte.x00 (Byte.of_N (N.of_nat (7 * n + 3)));
     clock := "2025-01-02T00:00:00.000Z";
     generate_device_token := Some other_token;
     assigned_id := "44444444-4444-4444-8444-444444444444";
     store_fault := λ _, false |}.

(** The same environment, the second store call of the request failing. *)
Definition env_write_fails : Env :=
  {| EMQX_BROKER_HOST := None;
     entropy := entropy env;
     clock := clock env;
     generate_device_token := None;
     assigned_id := assigned_id env;
     store_fault := λ n, bool_decide (n = 1%nat) |}.

Definition request : Request :=
  {| headers_authorization := None; params_id := ""; query_project_id := None;
     body_device_token := Some token;
     body_mac_address := Some "AA:BB:CC:DD:EE:FF";
     body_firmware_version := Some "1.0.0";
     body_project_id := None; body_name := None; body_hardware_type := None |}.

(** The device asks again, with the token regeneration gave it. *)
Definition second_request : Request :=
  {| headers_authorization := None; params_id := ""; query_project_id := None;
     body_device_token := Some other_token;
     body_mac_address := None; body_firmware_version := Some "1.0.1";
     body_project_id := None; body_name := None; body_hardware_type := None |}.

(** A request of the owner, whose bearer token the identity provider accepts. *)
Definition owner_request (id : string) (name' hardware_type' : option string) : Request :=
  {| headers_authorization := Some "Bearer owner-jwt"; params_id := id;
     query_project_id := None;
     body_device_token := None; body_mac_address := None;
     body_firmware_version := None;
     body_project_id := None; body_name := name'; body_hardware_type := hardware_type' |}.

Definition getUser (token' : string) : AuthResult :=
  if String.eqb token' "owner-jwt" then AuthUser owner else AuthRejected.

(** Stand-in for validator's [isUUID] on the ids of the scenario: five groups
    of 8, 4, 4, 4 and 12 hexadecimal digits, the third starting with a
    version digit 1 to 8 and the fourth with a variant digit 8, 9, a or b. *)
Fixpoint hex_digits (n : nat) (s : string) : option string :=
  match n, s with
  | O, _ => Some s
  | S n', String c r => if is_hex c then hex_digits n' r else None
  | S _, EmptyString => None
  end.

Definition hex_group (n : nat) (first : ascii → bool) (s : string) : option string :=
  match s with
  | String c r => if first c then hex_digits n r else None
  | EmptyString => None
  end.

Definition hyphen_then (s : option string) (next : string → option string)
  : option string :=
  match s with
  | Some (String c r) => if Ascii.eqb c "-" then next r else None
  | _ => None
  end.

Definition isUUID (s : string) : bool :=
  match
    hyphen_then
      (hyphen_then
         (hyphen_then
            (hyphen_then (hex_digits 8 s) (hex_digits 4))
            (hex_group 3 (λ c, let n := nat_of_ascii c in (49 <=? n) && (n <=? 56))%nat))
         (hex_group 3 (λ c, let n := nat_of_ascii c in
                            (56 <=? n) && (n <=? 57) || (n =? 97) || (n =? 98)
                            || (n =? 65) || (n =? 66))%nat))
      (hex_digits 12)
  with
  | Some EmptyString => true
  | _ => false
  end.

(** The store once the device is provisioned, and its row then. *)
Definition provisioned_store : Store := (provision env store request).2.

Definition provisioned_device : Device :=
  provisioned_row row "u_11111111_d_22222222"
    (hashPassword (generateSecurePassword (entropy env)))
    (Some "AA:BB:CC:DD:EE:FF") (Some "1.0.0") (clock env).

End Scenario.

(** A user and a device whose ids have hyphens among their first eight
    characters. *)
Module Hyphenated.

Definition owner : string := "ab-cd-ef-01-23456789".
Definition device : string := "1-2-3-4-5-6-7-8-9".

Definition store : Store :=
  {| devices := {[ device := Scenario.row ]};
     projects :=
       {[ Scenario.project :=
            {| user_id := owner; project_name := "Smart Home"; slug := "smart-home" |} ]};
     device_channels := [] |}.

End Hyphenated.

(** ** Induction on JavaScript values *)

Section json_induction.

Variable P : json → Prop.
Hypothesis P_undefined : P JUndefined.
Hypothesis P_null : P JNull.
Hypothesis P_bool : ∀ b, P (JBool b).
Hypothesis P_num : ∀ n, P (JNum n).
Hypothesis P_str : ∀ s, P (JStr s).
Hypothesis P_arr : ∀ items, Forall P items → P (JArr items).
Hypothesis P_obj : ∀ fields, Forall (λ kv, P (snd kv)) fields → P (JObj fields).

Fixpoint json_induction (j : json) : P j :=
  match j with
  | JUndefined => P_undefined
  | JNull => P_null
  | JBool b => P_bool b
  | JNum n => P_num n
  | JStr s => P_str s
  | JArr items =>
      P_arr items
        ((fix all (l : list json) : Forall P l :=
            match l with
            | [] => @List.Forall_nil _ P
            | x :: r => @List.Forall_cons _ P x r (json_induction x) (all r)
            end) items)
  | JObj fields =>
      P_obj fields
        ((fix all (l : list (string * json)) : Forall (λ kv, P (snd kv)) l :=
            match l with
            | [] => @List.Forall_nil _ _
            | kv :: r =>
                @List.Forall_cons _ (λ kv, P (snd kv)) kv r (json_induction (snd kv)) (all r)
            end) fields)
  end.

End json_induction.

(** * The vocabulary of the further properties *)

(** ** Slugs *)

(** The characters of a slug: [[a-z0-9]] and the hyphen. *)
Definition slug_alphabet (c : ascii) : bool := is_slug_char c || Ascii.eqb c "-".

Definition starts_with_hyphen (s : string) : bool :=
  match s with
  | String c _ => Ascii.eqb c "-"
  | EmptyString => false
  end.

Fixpoint ends_with_hyphen (s : string) : bool :=
  match s with
  | EmptyString => false
  | String c EmptyString => Ascii.eqb c "-"
  | String _ r => ends_with_hyphen r
  end.

(** No two hyphens in a row. *)
Fixpoint no_double_hyphen (s : string) : bool :=
  match s with
  | EmptyString => true
  | String c r =>
      negb (Ascii.eqb c "-" && starts_with_hyphen r) && no_double_hyphen r
  end.

(** A slug as [generateSlug] writes one when nothing is cut off: at most 50
    characters of the alphabet, hyphens only between other characters and
    never two in a row. *)
Definition canonical_slug (s : string) : Prop :=
  (String.length s <= 50)%nat
  ∧ string_forall slug_alphabet s = true
  ∧ starts_with_hyphen s = false
  ∧ ends_with_hyphen s = false
  ∧ no_double_hyphen s = true.

(** A letter or a digit of ASCII. *)
Definition is_alphanumeric (c : ascii) : bool :=
  let n := nat_of_ascii c in
  ((48 <=? n) && (n <=? 57) || (65 <=? n) && (n <=? 90)
   || (97 <=? n) && (n <=? 122))%nat.

(** Some character of the name is a letter or a digit of ASCII, or one of
    U+0130 and U+212A, the two characters outside ASCII whose lower case has
    a letter of ASCII. *)
Fixpoint starts_with (p s : string) : bool :=
  match p, s with
  | EmptyString, _ => true
  | String x p', String y s' => Ascii.eqb x y && starts_with p' s'
  | String _ _, EmptyString => false
  end.

Fixpoint has_alphanumeric (s : string) : bool :=
  match s with
  | EmptyString => false
  | String a r =>
      is_alphanumeric a
      || starts_with (String "196" (String "176" EmptyString)) s
      || starts_with (String "226" (String "132" (String "170" EmptyString))) s
      || has_alphanumeric r
  end.

Definition no_alphanumeric (s : string) : bool := negb (has_alphanumeric s).

(** ** A request that registers a device *)

(** The owner of the scenario registers a device in the project. *)
Definition create_request : Request :=
  {| headers_authorization := Some "Bearer owner-jwt"; params_id := "";
     query_project_id := None;
     body_device_token := None; body_mac_address := None;
     body_firmware_version := None;
     body_project_id := Some Scenario.project;
     body_name := Some "  Porch light ";
     body_hardware_type := None |}.

(** The device asks for its credentials with the token [other_token]. *)
Definition device_request (tok : string) : Request :=
  {| headers_authorization := None; params_id := ""; query_project_id := None;
     body_device_token := Some tok;
     body_mac_address := None; body_firmware_version := None;
     body_project_id := None; body_name := None; body_hardware_type := None |}.

(** ** A device of someone else *)

(** The store of the scenario, the project in the hands of another user. *)
Definition foreign_store : Store :=
  {| devices := devices Scenario.store;
     projects :=
       {[ Scenario.project :=
            {| user_id := "99999999-9999-4999-8999-999999999999";
               project_name := "Workshop"; slug := "workshop" |} ]};
     device_channels := device_channels Scenario.store |}.

(** ** A request that creates or renames a project *)

Definition project_request (id : string) (name' : option string) : Request :=
  {| headers_authorization := Some "Bearer owner-jwt"; params_id := id;
     query_project_id := None;
     body_device_token := None; body_mac_address := None;
     body_firmware_version := None;
     body_project_id := None; body_name := name'; body_hardware_type := None |}.

Definition project_body : ProjectBody :=
  {| body_slug := None; body_description := Some " all the plugs " |}.

(** The property names and the lengths the PATCH route of the projects may
    send to the store. *)
Definition project_update (u : string * string) : Prop :=
  (u.1 = "name" ∧ (1 <= isLength_len u.2 <= 100)%nat)
  ∨ (u.1 = "slug" ∧ (1 <= isLength_len u.2 <= 50)%nat)
  ∨ u.1 = "description".

(** * Properties *)

(** ** The model against known values *)

Example sha256_abc :
  Crypto.sha256_hex "abc"
  = "ba7816bf8f01cfea414140de5dae2223b00361a396177a9cb410ff61f20015ad".
Proof. vm_compute. reflexivity. Qed.

Example sha256_empty :
  Crypto.sha256_hex ""
  = "e3b0c44298fc1c149afbf4c8996fb92427ae41e4649b934ca495991b7852b855".
Proof. vm_compute. reflexivity. Qed.

Example sha256_two_blocks :
  Crypto.sha256_hex "abcdbcdecdefdefgefghfghighijhijkijkljklmklmnlmnomnopnopq"
  = "248d6a61d20638b8e5c026930c3e6039a33ce45964ff2167f6ecedd419db06c1".
Proof. vm_compute. reflexivity. Qed.

Example base64url_foobar :
  Crypto.base64url [Byte.x66; Byte.x6f; Byte.x6f; Byte.x62; Byte.x61; Byte.x72] = "Zm9vYmFy"
  ∧ Crypto.base64url [Byte.xfb; Byte.xff] = "-_8"
  ∧ Crypto.base64url [Byte.x66] = "Zg".
Proof. vm_compute. auto. Qed.

Example is_mac_examples :
  is_mac "AA:BB:CC:DD:EE:FF" = true ∧ is_mac "aa:bb:cc:dd:ee:0f" = true
  ∧ is_mac "AA:BB:CC:DD:EE:F" = false ∧ is_mac "AA:BB:CC:DD:EE:FF:" = false
  ∧ is_mac "AA-BB-CC-DD-EE-FF" = false ∧ is_mac "" = false.
Proof. vm_compute. auto 10. Qed.

Example string_helper_examples :
  trim "  Living Room  " = "Living Room"
  ∧ trim "   " = ""
  ∧ split_space "Bearer abc def" = ["Bearer"; "abc"; "def"]
  ∧ nth 1 (split_space "Bearer ") "" = ""
  ∧ mqttUsername "11111111-1111-4111-8111-111111111111"
                 "22222222-2222-4222-8222-222222222222" = "u_11111111_d_22222222"
  ∧ mqttUsername "ab-cd" "1-2-3" = "u_abcd_d_123".
Proof. vm_compute. auto 10. Qed.

Example scenario_provision :
  let r := (provision Scenario.env Scenario.store Scenario.request).1 in
  status r = 200
  ∧ body_field "mqtt" r ≫= get_field "username" = Some (JStr "u_11111111_d_22222222")
  ∧ response_password r = Some (JStr "AwoRGB8mLTQ7QklQV15lbHN6gYiPlp2k")
  ∧ body_field "topics" r ≫= get_field "subscribe"
    = Some (JStr "u/11111111-1111-4111-8111-111111111111/d/22222222-2222-4222-8222-222222222222/cmd/#")
  ∧ devices Scenario.provisioned_store !! Scenario.device
    = Some Scenario.provisioned_device.
Proof. vm_compute. auto 10. Qed.

Example scenario_list_devices :
  body (list_devices Scenario.isUUID Scenario.getUser Scenario.env
          Scenario.provisioned_store (Scenario.owner_request "" None None)).1
  = Some
      (JObj
         [("devices",
           JArr
             [JObj
                [ ("id", JStr Scenario.device);
                  ("project_id", JStr Scenario.project);
                  ("name", JStr "Living Room Plug");
                  ("hardware_type", JStr "ESP32");
                  ("is_provisioned", JBool true);
                  ("mqtt_username", JStr "u_11111111_d_22222222");
                  ("mac_address", JStr "AA:BB:CC:DD:EE:FF");
                  ("firmware_version", JStr "1.0.0");
                  ("provisioned_at", JStr "2025-01-02T00:00:00.000Z");
                  ("created_at", JStr "2025-01-01T00:00:00.000Z");
                  ("project",
                   JObj [ ("id", JStr Scenario.project);
                          ("name", JStr "Smart Home");
                          ("slug", JStr "smart-home") ]) ]])]).
Proof. vm_compute. reflexivity. Qed.

Example scenario_regenerate_token :
  let r := (regenerate_token Scenario.isUUID Scenario.getUser Scenario.env
              Scenario.provisioned_store
              (Scenario.owner_request Scenario.device None None)).1 in
  status r = 200
  ∧ body_field "device" r ≫= get_field "device_token"
    = Some (JStr Scenario.other_token)
  ∧ body_field "device" r ≫= get_field "is_provisioned" = Some (JBool false)
  ∧ body_field "device" r ≫= get_field "mqtt_username" = Some JNull
  ∧ body_field "device" r ≫= get_field "mqtt_password_hash" = Some JNull.
Proof. vm_compute. auto 10. Qed.

Example scenario_validation_failed :
  (provision Scenario.env Scenario.store
     {| headers_authorization := None; params_id := ""; query_project_id := None;
        body_device_token := Some "short"; body_mac_address := Some "zz";
        body_firmware_version := None;
        body_project_id := None; body_name := None; body_hardware_type := None |}).1
  = {| status := 400;
       body := Some
         (JObj
            [("errors",
              JArr
                [ JObj [ ("type", JStr "field"); ("value", JStr "short");
                         ("msg", JStr "Invalid value"); ("path", JStr "device_token");
                         ("location", JStr "body") ];
                  JObj [ ("type", JStr "field"); ("value", JStr "zz");
                         ("msg", JStr "Invalid value"); ("path", JStr "mac_address");
                         ("location", JStr "body") ] ])]) |}.
Proof. vm_compute. reflexivity. Qed.

Example isLength_len_examples :
  isLength_len "plug" = 4%nat
  ∧ String.length "é" = 2%nat ∧ isLength_len "é" = 1%nat
  ∧ isLength_len (copies 64 "é") = 64%nat
  ∧ isLength 64 64 (copies 32 "é") = false
  ∧ isLength_len (String "239" (String "184" (String "143" "a"))) = 1%nat
  ∧ trim (String "194" (String "160" ("x " +:+ String "227" (String "128" (String "128" ""))))) = "x"
  ∧ trim (String "194" (String "160" EmptyString)) = "".
Proof. vm_compute. auto 10. Qed.

Example provision_non_ascii_token :
  status (provision Scenario.env Scenario.store
            (with_mac_address "AA:BB:CC:DD:EE:FF"
               {| headers_authorization := None; params_id := "";
                  query_project_id := None;
                  body_device_token := Some (copies 32 "é");
                  body_mac_address := None; body_firmware_version := None;
                  body_project_id := None; body_name := None;
                  body_hardware_type := None |})).1 = 400
  ∧ status (provision Scenario.env Scenario.store
              (with_mac_address "AA:BB:CC:DD:EE:FF"
                 {| headers_authorization := None; params_id := "";
                    query_project_id := None;
                    body_device_token := Some (copies 64 "é");
                    body_mac_address := None; body_firmware_version := None;
                    body_project_id := None; body_name := None;
                    body_hardware_type := None |})).1 = 401.
Proof. vm_compute. auto. Qed.

Example generateSlug_outside_ascii :
  generateSlug (String "226" (String "132" (String "170" "elvin"))) = "kelvin"
  ∧ generateSlug (String "196" (String "176" "stanbul")) = "i-stanbul"
  ∧ generateSlug "Café Łódź" = "caf-d"
  ∧ generateSlug "é" = "".
Proof. vm_compute. auto. Qed.

(** ** Generated passwords and their digests *)

Lemma slice_0_length n s : (String.length (slice_0 n s) <= n)%nat.
Proof. revert s. induction n as [|n IH]; intros [|c r]; cbn; try lia. specialize (IH r). lia. Qed.

Lemma lor_shiftl_add hi lo k :
  0 <= k → 0 <= lo < 2 ^ k → Z.lor (Z.shiftl hi k) lo = hi * 2 ^ k + lo.
Proof.
  intros Hk Hlo. rewrite <- Z.shiftl_mul_pow2 by done.
  rewrite <- Z.add_lor_land.
  assert (Z.land (Z.shiftl hi k) lo = 0) as ->; [|lia].
  apply Z.bits_inj'. intros i Hi. rewrite Z.land_spec, Z.bits_0.
  destruct (Z.lt_ge_cases i k).
  - by rewrite Z.shiftl_spec_low.
  - rewrite <- (Z.mod_small lo (2 ^ k)) by done.
    rewrite Z.mod_pow2_bits_high by lia. apply andb_false_r.
Qed.

Lemma byteZ_range b : 0 <= Crypto.byteZ b < 256.
Proof.
  unfold Crypto.byteZ. pose proof (Byte.to_N_bounded b). lia.
Qed.

Lemma to_byte_byteZ b k : to_byte (k * 256 + Crypto.byteZ b) = b.
Proof.
  unfold to_byte. pose proof (byteZ_range b).
  rewrite Z.add_comm, Z.mod_add, Z.mod_small by lia.
  unfold Crypto.byteZ. by rewrite N2Z.id, Byte.of_to_N.
Qed.

Lemma b64index_get (m : nat) :
  (m < 64)%nat →
  b64index (default "A"%char (String.get m Crypto.base64url_alphabet)) = Z.of_nat m.
Proof. do 64 (destruct m as [|m]; [reflexivity|]). lia. Qed.

Lemma b64index_b64char x : b64index (Crypto.b64char x) = x mod 64.
Proof.
  unfold Crypto.b64char.
  assert (0 <= x mod 64 < 64) as Hx by (apply Z.mod_pos_bound; lia).
  rewrite b64index_get by lia. lia.
Qed.

Lemma base64url_decode_3 a b c rest :
  base64url_decode (Crypto.base64url (a :: b :: c :: rest))
  = a :: b :: c :: base64url_decode (Crypto.base64url rest).
Proof.
  pose proof (byteZ_range a). pose proof (byteZ_range b). pose proof (byteZ_range c).
  cbn [Crypto.base64url base64url_decode]. cbv zeta.
  rewrite !b64index_b64char, !Z.shiftr_div_pow2 by lia.
  assert (Z.lor (Z.lor (Z.shiftl (Crypto.byteZ a) 16) (Z.shiftl (Crypto.byteZ b) 8))
                (Crypto.byteZ c)
          = Crypto.byteZ a * 65536 + Crypto.byteZ b * 256 + Crypto.byteZ c) as ->.
  { rewrite (lor_shiftl_add _ _ 16) by (rewrite ?Z.shiftl_mul_pow2; lia).
    replace (Crypto.byteZ a * 2 ^ 16 + Z.shiftl (Crypto.byteZ b) 8)
      with (Z.shiftl (Crypto.byteZ a * 256 + Crypto.byteZ b) 8)
      by (rewrite !Z.shiftl_mul_pow2; lia).
    rewrite lor_shiftl_add; lia. }
  set (n := Crypto.byteZ a * 65536 + Crypto.byteZ b * 256 + Crypto.byteZ c).
  assert ((n / 2 ^ 18) mod 64 * 262144 + (n / 2 ^ 12) mod 64 * 4096
          + (n / 2 ^ 6) mod 64 * 64 + n mod 64 = n) as ->.
  { change (2 ^ 18) with 262144. change (2 ^ 12) with 4096. change (2 ^ 6) with 64.
    subst n. Z.div_mod_to_equations. lia. }
  f_equal; [|f_equal; [|f_equal]].
  - replace (n / 65536) with (0 * 256 + Crypto.byteZ a)
      by (subst n; Z.div_mod_to_equations; lia).
    apply to_byte_byteZ.
  - replace (n / 256) with (Crypto.byteZ a * 256 + Crypto.byteZ b)
      by (subst n; Z.div_mod_to_equations; lia).
    apply to_byte_byteZ.
  - replace n with ((Crypto.byteZ a * 256 + Crypto.byteZ b) * 256 + Crypto.byteZ c)
      by (subst n; lia).
    apply to_byte_byteZ.
Qed.

Lemma base64url_decode_1 a : base64url_decode (Crypto.base64url [a]) = [a].
Proof.
  pose proof (byteZ_range a).
  cbn [Crypto.base64url base64url_decode]. cbv zeta.
  rewrite !b64index_b64char, !Z.shiftr_div_pow2, Z.shiftl_mul_pow2 by lia.
  change (2 ^ 18) with 262144. change (2 ^ 12) with 4096. change (2 ^ 16) with 65536.
  f_equal.
  replace (_ / 65536) with (0 * 256 + Crypto.byteZ a)
    by (Z.div_mod_to_equations; lia).
  apply to_byte_byteZ.
Qed.

Lemma base64url_decode_2 a b : base64url_decode (Crypto.base64url [a; b]) = [a; b].
Proof.
  pose proof (byteZ_range a). pose proof (byteZ_range b).
  cbn [Crypto.base64url base64url_decode]. cbv zeta.
  rewrite !b64index_b64char, !Z.shiftr_div_pow2 by lia.
  rewrite (lor_shiftl_add _ _ 16) by (rewrite ?Z.shiftl_mul_pow2; lia).
  rewrite Z.shiftl_mul_pow2 by lia.
  change (2 ^ 18) with 262144. change (2 ^ 12) with 4096. change (2 ^ 16) with 65536.
  change (2 ^ 8) with 256. change (2 ^ 6) with 64.
  f_equal; [|f_equal].
  - replace (_ / 65536) with (0 * 256 + Crypto.byteZ a)
      by (Z.div_mod_to_equations; lia).
    apply to_byte_byteZ.
  - replace (_ / 256) with (Crypto.byteZ a * 256 + Crypto.byteZ b)
      by (Z.div_mod_to_equations; lia).
    apply to_byte_byteZ.
Qed.

Lemma base64url_decode_base64url bs : base64url_decode (Crypto.base64url bs) = bs.
Proof.
  assert (∀ n bs, (length bs <= n)%nat → base64url_decode (Crypto.base64url bs) = bs)
    as Hall; [|by apply (Hall (length bs))].
  clear bs. induction n as [|n IH]; intros [|a [|b [|c rest]]] Hlen; try done.
  - apply base64url_decode_1.
  - apply base64url_decode_2.
  - cbn in Hlen. lia.
  - apply base64url_decode_1.
  - apply base64url_decode_2.
  - rewrite base64url_decode_3, IH; [done|]. cbn in Hlen. lia.
Qed.

Lemma b64char_url_safe n : url_safe (Crypto.b64char n) = true.
Proof.
  unfold Crypto.b64char.
  assert (Z.to_nat (n mod 64) < 64)%nat as Hlt
    by (pose proof (Z.mod_pos_bound n 64); lia).
  revert Hlt. generalize (Z.to_nat (n mod 64)). intros m Hlt.
  do 64 (destruct m as [|m]; [reflexivity|]). lia.
Qed.

Lemma base64url_url_safe bs : string_forall url_safe (Crypto.base64url bs) = true.
Proof.
  assert (∀ k bs, (length bs <= k)%nat →
                  string_forall url_safe (Crypto.base64url bs) = true) as H.
  { induction k as [k IH] using lt_wf_ind. intros l Hl.
    destruct l as [|a [|b [|c rest]]]; cbn [Crypto.base64url string_forall];
      rewrite ?b64char_url_safe; try reflexivity.
    cbn [andb]. apply (IH (k - 3)%nat); cbn [length] in Hl; lia. }
  apply (H (length bs)). lia.
Qed.

Lemma base64url_length_3 a b c rest :
  String.length (Crypto.base64url (a :: b :: c :: rest))
  = (4 + String.length (Crypto.base64url rest))%nat.
Proof. reflexivity. Qed.

Lemma generateSecurePassword_length source :
  String.length (generateSecurePassword source) = 32%nat.
Proof.
  unfold generateSecurePassword, Crypto.randomBytes.
  cbn [seq map]. rewrite !base64url_length_3. reflexivity.
Qed.

Lemma generateSecurePassword_url_safe source :
  string_forall url_safe (generateSecurePassword source) = true.
Proof. apply base64url_url_safe. Qed.

Lemma hashPassword_length password : String.length (hashPassword password) = 64%nat.
Proof.
  unfold hashPassword, Crypto.sha256_hex.
  generalize (Crypto.sha256 (Crypto.string_bytes password)). intros s.
  reflexivity.
Qed.

Lemma hexchar_lower_hex n : lower_hex (Crypto.hexchar n) = true.
Proof.
  unfold Crypto.hexchar.
  assert (Z.to_nat (n mod 16) < 16)%nat as Hlt
    by (pose proof (Z.mod_pos_bound n 16); lia).
  revert Hlt. generalize (Z.to_nat (n mod 16)). intros m Hlt.
  do 16 (destruct m as [|m]; [reflexivity|]). lia.
Qed.

Lemma hashPassword_lower_hex password :
  string_forall lower_hex (hashPassword password) = true.
Proof.
  unfold hashPassword, Crypto.sha256_hex.
  generalize (Crypto.sha256 (Crypto.string_bytes password)). intros s.
  unfold Crypto.digest_hex, Crypto.hex32. cbn [string_forall].
  by rewrite !hexchar_lower_hex.
Qed.

(** ** Lookup by token *)

Lemma elem_of_select_by_token st tok id d :
  (id, d) ∈ select_by_token st tok
  ↔ devices st !! id = Some d ∧ device_token d = tok.
Proof.
  unfold select_by_token. rewrite list_elem_of_filter, elem_of_map_to_list.
  cbn. tauto.
Qed.

Lemma NoDup_select_by_token st tok : NoDup (select_by_token st tok).
Proof. apply NoDup_filter, NoDup_map_to_list. Qed.

(** [.single()] finds a row for the token exactly when one device holds it. *)
Lemma select_by_token_sole st tok id d :
  select_by_token st tok = [(id, d)] ↔ sole_holder st tok id d.
Proof.
  split.
  - intros Hsel. unfold sole_holder.
    assert (∀ id' d', devices st !! id' = Some d' → device_token d' = tok
                      → (id', d') = (id, d)) as Hall.
    { intros id' d' Hl Ht.
      assert ((id', d') ∈ select_by_token st tok) as Hin
        by (apply elem_of_select_by_token; auto).
      rewrite Hsel in Hin. by apply list_elem_of_singleton in Hin. }
    assert ((id, d) ∈ select_by_token st tok) as Hin
      by (rewrite Hsel; apply list_elem_of_singleton; reflexivity).
    apply elem_of_select_by_token in Hin as [Hl Ht].
    split; [exact Hl|]. split; [exact Ht|].
    intros id' d' Hl' Ht'. specialize (Hall id' d' Hl' Ht'). congruence.
  - intros (Hl & Ht & Huniq).
    pose proof (NoDup_select_by_token st tok) as Hnd.
    assert ((id, d) ∈ select_by_token st tok) as Hin
      by (apply elem_of_select_by_token; auto).
    assert (∀ row, row ∈ select_by_token st tok → row = (id, d)) as Hall.
    { intros [id' d'] Hin'. apply elem_of_select_by_token in Hin' as [Hl' Ht'].
      pose proof (Huniq id' d' Hl' Ht') as ->. congruence. }
    destruct (select_by_token st tok) as [|r1 [|r2 rest]].
    + by apply elem_of_nil in Hin.
    + rewrite (Hall r1); [reflexivity|left].
    + exfalso. apply NoDup_cons_1_1 in Hnd. apply Hnd.
      rewrite (Hall r1), (Hall r2); [left|right; left|left].
Qed.

Lemma select_by_token_none st tok :
  (∀ id d, devices st !! id = Some d → device_token d ≠ tok) →
  select_by_token st tok = [].
Proof.
  intros Hnone. destruct (select_by_token st tok) as [|[id d] rest] eqn:Hsel; [reflexivity|].
  assert ((id, d) ∈ select_by_token st tok) as Hin by (rewrite Hsel; left).
  apply elem_of_select_by_token in Hin as [Hl Ht]. destruct (Hnone id d Hl Ht).
Qed.

Lemma sole_holder_insert st tok id d row :
  sole_holder st tok id d → device_token row = tok →
  sole_holder (with_devices st (<[id := row]> (devices st))) tok id row.
Proof.
  intros (Hl & Ht & Huniq) Hrow. unfold sole_holder; cbn.
  split; [apply lookup_insert_eq|]. split; [exact Hrow|].
  intros id' d' Hl' Ht'. destruct (decide (id' = id)) as [|Hne]; [assumption|].
  rewrite lookup_insert_ne in Hl' by congruence. eauto.
Qed.

(** Under the uniqueness constraint every device is the sole holder of its
    token. *)
Lemma unique_tokens_sole_holder st id d :
  unique_tokens st → devices st !! id = Some d → sole_holder st (device_token d) id d.
Proof.
  intros Huniq Hl. split; [exact Hl|]. split; [reflexivity|].
  intros id' d' Hl' Ht. by apply (Huniq id' id d' d).
Qed.

Lemma token_in_use_false st id tok :
  token_in_use st id tok = false
  ↔ ∀ id' d', devices st !! id' = Some d' → id' ≠ id → device_token d' ≠ tok.
Proof.
  unfold token_in_use. rewrite <- not_true_iff_false, existsb_exists. split.
  - intros Hno id' d' Hl Hne Ht. apply Hno. exists (id', d'). split.
    + by apply list_elem_of_In, elem_of_map_to_list.
    + cbn. apply andb_true_intro. split.
      * by apply negb_true_iff, String.eqb_neq.
      * by apply String.eqb_eq.
  - intros Hall ([id' d'] & Hin & Hf).
    apply list_elem_of_In, elem_of_map_to_list in Hin.
    cbn in Hf. apply andb_prop in Hf as [Hne Ht].
    apply negb_true_iff, String.eqb_neq in Hne. apply String.eqb_eq in Ht.
    by apply (Hall id' d').
Qed.

Lemma unique_tokens_insert st id row :
  unique_tokens st →
  (∀ id' d', devices st !! id' = Some d' → id' ≠ id →
             device_token d' ≠ device_token row) →
  unique_tokens (with_devices st (<[id := row]> (devices st))).
Proof.
  intros Huniq Hfresh i j di dj. cbn [devices with_devices].
  rewrite !lookup_insert. repeat case_decide; subst.
  - done.
  - intros [= <-] Hj Ht. destruct (Hfresh j dj Hj); [congruence|done].
  - intros Hi [= <-] Ht. destruct (Hfresh i di Hi); [congruence|done].
  - apply Huniq.
Qed.

Lemma unique_tokens_insert_same st id d row :
  unique_tokens st → devices st !! id = Some d → device_token row = device_token d →
  unique_tokens (with_devices st (<[id := row]> (devices st))).
Proof.
  intros Huniq Hl Ht. apply unique_tokens_insert; [done|].
  intros id' d' Hl' Hne Heq. apply Hne. apply (Huniq id' id d' d); congruence.
Qed.

(** ** The properties of response bodies *)

(** A value that holds no property named [k] exposes none. *)
Lemma exposes_has_key k j : has_key k j = false → exposes k j = false.
Proof.
  induction j as [| | | | |items IH|fields IH] using json_induction; try done.
  - cbn [has_key exposes]. induction IH as [|x r Hx _ IHr]; [done|].
    cbn [existsb]. intros [H1 H2]%orb_false_elim. by rewrite Hx, IHr.
  - cbn [has_key exposes]. induction IH as [|[k' v] r Hx _ IHr]; [done|].
    cbn [existsb fst snd] in *.
    intros [[H1 H2]%orb_false_elim H3]%orb_false_elim.
    by rewrite H1, Hx, IHr.
Qed.

Lemma body_exposes_has_key k r : body_has_key k r = false → body_exposes k r = false.
Proof.
  unfold body_has_key, body_exposes. case_match; [apply exposes_has_key|done].
Qed.

Lemma has_key_stringify_app k l1 l2 :
  has_key k (stringify (JObj (l1 ++ l2)))
  = has_key k (stringify (JObj l1)) || has_key k (stringify (JObj l2)).
Proof. cbn [stringify has_key]. by rewrite flat_map_app, existsb_app. Qed.

Ltac secret_cases H := destruct H as [->|[->| ->]].

Lemma has_key_error_json k e : secret k → has_key k (stringify (error_json e)) = false.
Proof. intros Hk. unfold error_json. destruct (ve_value e); by secret_cases Hk. Qed.

Lemma has_key_validation_failed k (e : ValidationError) errors :
  secret k →
  body_has_key k (res_json 400 (JObj [("errors", JArr (map error_json (e :: errors)))]))
  = false.
Proof.
  intros Hk. unfold body_has_key, res_json; cbn [body].
  cbn [stringify flat_map app has_key existsb fst snd]. rewrite orb_false_r.
  assert (String.eqb "errors" k = false) as -> by by secret_cases Hk.
  cbn [orb]. induction (e :: errors) as [|e' errors' IH]; [done|].
  cbn [map existsb]. rewrite IH, orb_false_r.
  pose proof (has_key_error_json k e' Hk) as He.
  unfold error_json in *. by destruct (ve_value e').
Qed.

Lemma stringify_row_fields id d :
  stringify (JObj (row_fields id d)) = JObj (row_fields id d).
Proof.
  destruct d as [? ? ? ? ? [?|] [?|] [?|] [?|] [?|] ?]; reflexivity.
Qed.

(** Sanitizing removes the two properties from the row; what the route
    appended to the row stays. *)
Lemma sanitize_row_fields k id d extra :
  secret k →
  has_key k (stringify (sanitize (row_fields id d ++ extra)))
  = has_key k (stringify (JObj extra)).
Proof.
  intros Hk.
  change (sanitize (row_fields id d ++ extra))
    with (JObj (set_field "mqtt_password_hash" JUndefined
                  (set_field "device_token" JUndefined (row_fields id d)) ++ extra)).
  rewrite has_key_stringify_app.
  destruct d as [? ? ? ? ? [?|] [?|] [?|] [?|] [?|] ?]; by secret_cases Hk.
Qed.

Lemma has_key_project_json k st uid pid :
  secret k → has_key k (stringify (JObj [("project", project_json st uid pid)])) = false.
Proof.
  intros Hk. unfold project_json. repeat case_match; by secret_cases Hk.
Qed.

Lemma has_key_channels k (channels : list Channel) :
  secret k →
  has_key k (stringify (JObj [("channels", JArr (map channel_json channels))])) = false.
Proof.
  intros Hk. cbn [stringify flat_map app has_key existsb fst snd].
  rewrite orb_false_r.
  assert (String.eqb "channels" k = false) as -> by by secret_cases Hk.
  cbn [orb]. induction channels as [|c channels IH]; [done|].
  cbn [map existsb]. rewrite IH, orb_false_r. by secret_cases Hk.
Qed.

Lemma has_key_failed k code message : secret k → body_has_key k (failed code message) = false.
Proof. intros Hk. by secret_cases Hk. Qed.

Lemma has_key_authenticate k getUser req r :
  secret k → authenticate getUser req = inl r → body_has_key k r = false.
Proof.
  intros Hk. unfold authenticate.
  repeat case_match; intros [= <-]; by secret_cases Hk.
Qed.

Lemma has_key_sanitized k id d extra :
  secret k →
  has_key k (stringify (JObj extra)) = false →
  has_key k (stringify (JObj [("device", sanitize (row_fields id d ++ extra))])) = false.
Proof.
  intros Hk Hextra.
  pose proof (sanitize_row_fields k id d extra Hk) as Hrow. unfold sanitize in *.
  cbn [stringify flat_map app has_key existsb fst snd] in *. rewrite orb_false_r.
  assert (String.eqb "device" k = false) as -> by by secret_cases Hk.
  cbn [orb]. by rewrite Hrow.
Qed.

Lemma has_key_device_list k st uid (data : list (string * Device)) :
  secret k →
  has_key k
    (stringify
       (JObj [("devices",
               JArr (map (λ row,
                       sanitize (row_fields (fst row) (snd row)
                                 ++ [("project", project_json st uid (project_id (snd row)))]))
                       data))])) = false.
Proof.
  intros Hk. cbn [stringify flat_map app has_key existsb fst snd].
  rewrite orb_false_r.
  assert (String.eqb "devices" k = false) as -> by by secret_cases Hk.
  cbn [orb]. induction data as [|[id d] data IH]; [done|].
  cbn [map existsb fst snd]. rewrite IH, orb_false_r.
  etrans; [apply (sanitize_row_fields k id d _ Hk)|by apply has_key_project_json].
Qed.

Lemma response_password_credentials host username password userId id name' :
  response_password (credentials host username password userId id name')
  = Some (JStr password).
Proof. reflexivity. Qed.

Lemma response_client_id_credentials host username password userId id name' :
  response_client_id (credentials host username password userId id name')
  = Some (JStr id).
Proof. reflexivity. Qed.

Lemma topics_credentials host username password userId id name' :
  body_field "topics" (credentials host username password userId id name')
  = Some (topics userId id).
Proof. reflexivity. Qed.

Lemma string_app_assoc (a b c : string) : (a +:+ b) +:+ c = a +:+ (b +:+ c).
Proof.
  induction a as [|x a IH]; [reflexivity|].
  change (String x ((a +:+ b) +:+ c) = String x (a +:+ (b +:+ c))). by rewrite IH.
Qed.

(** ** Provisioning *)

Lemma valid_body_checks req tok :
  valid_body req tok ↔ body_device_token req = Some tok ∧ provision_checks req = [].
Proof.
  unfold valid_body, provision_checks, isLength. split.
  - intros (-> & -> & Hmac). split; [done|]. rewrite Nat.leb_refl. cbn [andb].
    destruct (body_mac_address req) as [m|]; [|done]. by rewrite (Hmac m).
  - intros [Htok Hchecks]. rewrite Htok in *. split; [done|].
    destruct ((64 <=? isLength_len tok) && (isLength_len tok <=? 64))%nat eqn:Hlen;
      [|done].
    apply andb_prop in Hlen as [?%Nat.leb_le ?%Nat.leb_le].
    split; [lia|]. intros m Hm. rewrite Hm in Hchecks.
    by destruct (is_mac m).
Qed.

(** Every run of [provision] is one of the five outcomes. *)
Lemma provision_outcome env st req : ProvisionOutcome env st req (provision env st req).
Proof.
  unfold provision, validate.
  destruct (provision_checks req) as [|e errors] eqn:Hchecks.
  - destruct (body_device_token req) as [tok|] eqn:Htok; [|apply Provision_500].
    unfold provision_handler.
    destruct (store_fault env 0%nat) eqn:Hfind; [apply Provision_401|].
    destruct (select_by_token st tok) as [|[id device] [|? ?]] eqn:Hsel;
      cbn [single]; [apply Provision_401| |apply Provision_401].
    apply select_by_token_sole in Hsel.
    destruct (is_provisioned device) eqn:Hprov; [by eapply Provision_409|].
    destruct (projects st !! project_id device) as [project|] eqn:Hproj;
      [|apply Provision_500].
    destruct (store_fault env 1%nat) eqn:Hwrite; [apply Provision_500|].
    by eapply Provision_200.
  - by apply Provision_400.
Qed.

(** The handler once the token resolves to one unprovisioned device whose
    project is there. *)
Lemma provision_resolved env st req tok id device project :
  valid_body req tok →
  sole_holder st tok id device →
  is_provisioned device = false →
  projects st !! project_id device = Some project →
  store_fault env 0%nat = false →
  provision env st req
  = if store_fault env 1%nat then (provisioning_failed, st)
    else
      (credentials (broker_host env) (mqttUsername (user_id project) id)
                   (generateSecurePassword (entropy env))
                   (user_id project) id (name device),
       with_devices st
         (<[id := provisioned_row device (mqttUsername (user_id project) id)
                    (hashPassword (generateSecurePassword (entropy env)))
                    (body_mac_address req) (body_firmware_version req) (clock env)]>
            (devices st))).
Proof.
  intros [Htok Hchecks]%valid_body_checks Hsole%select_by_token_sole Hprov Hproj Hfind.
  unfold provision. rewrite Hchecks, Htok. cbn [validate].
  unfold provision_handler. rewrite Hfind, Hsole. cbn [single].
  by rewrite Hprov, Hproj.
Qed.

Lemma provision_conflict env st req tok id device :
  valid_body req tok →
  sole_holder st tok id device →
  is_provisioned device = true →
  store_fault env 0%nat = false →
  provision env st req = (already_provisioned, st).
Proof.
  intros [Htok Hchecks]%valid_body_checks Hsole%select_by_token_sole Hprov Hfind.
  unfold provision. rewrite Hchecks, Htok. cbn [validate].
  unfold provision_handler. rewrite Hfind, Hsole. cbn [single].
  by rewrite Hprov.
Qed.

Lemma provision_200 env st req :
  status (provision env st req).1 = 200 →
  ∃ tok id device project,
    sole_holder st tok id device
    ∧ projects st !! project_id device = Some project
    ∧ provision env st req
      = (credentials (broker_host env) (mqttUsername (user_id project) id)
                     (generateSecurePassword (entropy env))
                     (user_id project) id (name device),
         with_devices st
           (<[id := provisioned_row device (mqttUsername (user_id project) id)
                      (hashPassword (generateSecurePassword (entropy env)))
                      (body_mac_address req) (body_firmware_version req) (clock env)]>
              (devices st))).
Proof.
  destruct (provision_outcome env st req) as [| | | |tok id device project];
    cbn [fst]; try discriminate.
  intros _. by exists tok, id, device, project.
Qed.

Lemma provision_has_key env st req :
  let r := (provision env st req).1 in
  body_has_key "mqtt_password_hash" r = false
  ∧ body_has_key "device_token" r = false
  ∧ (status r = 200 ∨ status r = 400 ∨ status r = 401 ∨ status r = 409 ∨ status r = 500)
  ∧ (status r ≠ 200 → body_has_key "password" r = false).
Proof.
  assert (secret "password" ∧ secret "mqtt_password_hash" ∧ secret "device_token")
    as (Hp & Hh & Ht) by (unfold secret; tauto).
  destruct (provision_outcome env st req); cbn [fst];
    rewrite ?has_key_validation_failed by done; cbn [status res_json];
    repeat split; auto; try done.
Qed.

(** ** The words of the specification and the string operations of the code *)

Lemma remove_hyphens_hyphens_removed s : remove_hyphens s = hyphens_removed s.
Proof.
  unfold hyphens_removed. induction s as [|c r IH]; [done|].
  cbn [remove_hyphens String.list_ascii_of_string List.filter].
  destruct (Ascii.eqb c "-"); cbn [negb String.string_of_list_ascii]; by rewrite IH.
Qed.

Lemma slice_0_first_characters n s : slice_0 n s = first_characters n s.
Proof.
  unfold first_characters. revert s. induction n as [|n IH]; intros [|c r]; try done.
  cbn [slice_0 String.list_ascii_of_string firstn String.string_of_list_ascii].
  by rewrite IH.
Qed.

Lemma mqttUsername_words user_id id :
  mqttUsername user_id id
  = "u_" +:+ first_characters 8 (hyphens_removed user_id)
         +:+ "_d_" +:+ first_characters 8 (hyphens_removed id).
Proof.
  unfold mqttUsername.
  by rewrite !remove_hyphens_hyphens_removed, !slice_0_first_characters.
Qed.

(** C1. For an unprovisioned device that alone holds the token of a valid
    request, with its project present and the store answering both calls,
    provisioning succeeds. The stored broker username is [u_], the first 8
    characters of the owner's user id once its hyphens are removed, [_d_],
    the first 8 characters of the device id once its hyphens are removed;
    [is_provisioned] becomes true. The response carries a password made at
    this request: it is the base64url text of the 24 bytes drawn from the
    random source, so it has 32 characters of the URL-safe alphabet and
    another draw gives another password; the row holds its hash. *)
Theorem provision_unprovisioned_device env st req tok id device project :
  valid_body req tok →
  sole_holder st tok id device →
  is_provisioned device = false →
  projects st !! project_id device = Some project →
  store_fault env 0%nat = false →
  store_fault env 1%nat = false →
  ∃ row password,
    status (provision env st req).1 = 200
    ∧ devices (provision env st req).2 !! id = Some row
    ∧ mqtt_username row
      = Some ("u_" +:+ first_characters 8 (hyphens_removed (user_id project))
                   +:+ "_d_" +:+ first_characters 8 (hyphens_removed id))
    ∧ is_provisioned row = true
    ∧ mqtt_password_hash row = Some (hashPassword password)
    ∧ response_password (provision env st req).1 = Some (JStr password)
    ∧ base64url_decode password = map (entropy env) (seq 0 24)
    ∧ (32 <= String.length password)%nat
    ∧ string_forall url_safe password = true.
Proof.
  intros Hbody Hsole Hprov Hproj Hfind Hwrite.
  rewrite (provision_resolved env st req tok id device project) by assumption.
  rewrite Hwrite. cbn [fst snd].
  eexists _, (generateSecurePassword (entropy env)).
  split; [reflexivity|].
  split; [cbn; apply lookup_insert_eq|].
  split; [cbn [mqtt_username provisioned_row]; by rewrite mqttUsername_words|].
  do 3 (split; [reflexivity|]).
  split; [apply base64url_decode_base64url|].
  split; [rewrite generateSecurePassword_length; lia|].
  apply generateSecurePassword_url_safe.
Qed.

Lemma provision_unprovisioned_device_witness :
  let r := provision Scenario.env Hyphenated.store Scenario.request in
  ∃ row password,
    status r.1 = 200
    ∧ devices r.2 !! Hyphenated.device = Some row
    ∧ mqtt_username row = Some "u_abcdef01_d_12345678"
    ∧ is_provisioned row = true
    ∧ mqtt_password_hash row = Some (hashPassword password)
    ∧ response_password r.1 = Some (JStr password)
    ∧ base64url_decode password = map (entropy Scenario.env) (seq 0 24)
    ∧ (32 <= String.length password)%nat
    ∧ string_forall url_safe password = true.
Proof.
  apply (provision_unprovisioned_device Scenario.env Hyphenated.store Scenario.request
           Scenario.token Hyphenated.device Scenario.row
           {| user_id := Hyphenated.owner; project_name := "Smart Home";
              slug := "smart-home" |}).
  - apply valid_body_checks. vm_compute. split; reflexivity.
  - apply select_by_token_sole. vm_compute. reflexivity.
  - reflexivity.
  - vm_compute. reflexivity.
  - reflexivity.
  - reflexivity.
Defined.

(** C2. Provisioning the same token twice in sequence gives one success and
    one conflict: the first call answers 200 and the second 409, which is
    not the 401 of an unknown token; the second call leaves the store as the
    first one left it, the device still provisioned. *)
Theorem provision_twice env1 env2 st req1 req2 tok id device project :
  valid_body req1 tok →
  sole_holder st tok id device →
  is_provisioned device = false →
  projects st !! project_id device = Some project →
  store_fault env1 0%nat = false →
  store_fault env1 1%nat = false →
  valid_body req2 tok →
  store_fault env2 0%nat = false →
  let first := provision env1 st req1 in
  let second := provision env2 first.2 req2 in
  status first.1 = 200
  ∧ status second.1 = 409
  ∧ status second.1 ≠ 401
  ∧ second.2 = first.2
  ∧ ∃ row, devices second.2 !! id = Some row ∧ is_provisioned row = true.
Proof.
  intros Hbody1 Hsole Hprov Hproj Hfind1 Hwrite1 Hbody2 Hfind2 first second.
  subst second first.
  rewrite (provision_resolved env1 st req1 tok id device project) by assumption.
  rewrite Hwrite1. cbn [fst snd].
  match goal with
  | |- context [with_devices st (<[id := ?row]> (devices st))] =>
      assert (sole_holder (with_devices st (<[id := row]> (devices st))) tok id row)
        as Hsole' by (apply (sole_holder_insert st tok id device); [done|apply Hsole]);
      rewrite (provision_conflict env2 _ req2 tok id row) by done
  end.
  cbn [fst snd]. repeat split; try done.
  eexists. split; [apply lookup_insert_eq|reflexivity].
Qed.

Lemma provision_twice_witness :
  let first := provision Scenario.env Scenario.store Scenario.request in
  let second := provision Scenario.env first.2 Scenario.request in
  status first.1 = 200
  ∧ status second.1 = 409
  ∧ status second.1 ≠ 401
  ∧ second.2 = first.2
  ∧ ∃ row, devices second.2 !! Scenario.device = Some row ∧ is_provisioned row = true.
Proof.
  apply (provision_twice Scenario.env Scenario.env Scenario.store
           Scenario.request Scenario.request Scenario.token Scenario.device
           Scenario.row Scenario.project_row).
  - apply valid_body_checks. vm_compute. split; reflexivity.
  - apply select_by_token_sole. vm_compute. reflexivity.
  - reflexivity.
  - vm_compute. reflexivity.
  - reflexivity.
  - reflexivity.
  - apply valid_body_checks. vm_compute. split; reflexivity.
  - reflexivity.
Defined.

(** C4. When the update that persists the credentials fails, the caller gets
    the 500 of the [catch] branch and nothing else: the response is the two
    fixed messages, the same whatever password had been generated, and the
    store is as before. More generally a response of [provision] that
    carries a password is only built after the update went through: the
    device row then holds the hash of that very password and is marked
    provisioned. *)
Theorem provision_write_failure env st req tok id device project :
  valid_body req tok →
  sole_holder st tok id device →
  is_provisioned device = false →
  projects st !! project_id device = Some project →
  store_fault env 0%nat = false →
  store_fault env 1%nat = true →
  provision env st req
  = (res_json 500
       (JObj [ ("error", JStr "Provisioning failed");
               ("message", JStr "Internal server error during provisioning") ]),
     st)
  ∧ (∀ source, provision (with_entropy source env) st req = provision env st req)
  ∧ ∀ env' req' value,
      response_password (provision env' st req').1 = Some value →
      store_fault env' 1%nat = false
      ∧ status (provision env' st req').1 = 200
      ∧ ∃ id' row' password,
          value = JStr password
          ∧ devices (provision env' st req').2 !! id' = Some row'
          ∧ mqtt_password_hash row' = Some (hashPassword password)
          ∧ is_provisioned row' = true.
Proof.
  intros Hbody Hsole Hprov Hproj Hfind Hwrite.
  split; [|split].
  - rewrite (provision_resolved env st req tok id device project) by assumption.
    by rewrite Hwrite.
  - intros source.
    rewrite (provision_resolved env st req tok id device project) by assumption.
    rewrite (provision_resolved (with_entropy source env) st req tok id device project)
      by assumption.
    cbn [store_fault with_entropy]. by rewrite Hwrite.
  - intros env' req' value.
    destruct (provision_outcome env' st req')
      as [| | | |tok' id' device' project' ? ? ? ? ? ? Hwrite']; cbn [fst snd];
      try discriminate.
    rewrite response_password_credentials. intros [= <-].
    do 2 (split; [done|]).
    eexists id', _, _. split; [reflexivity|].
    split; [apply lookup_insert_eq|]. by split.
Qed.

Lemma provision_write_failure_witness :
  let env := Scenario.env_write_fails in
  provision env Scenario.store Scenario.request
  = (res_json 500
       (JObj [ ("error", JStr "Provisioning failed");
               ("message", JStr "Internal server error during provisioning") ]),
     Scenario.store)
  ∧ (∀ source,
       provision (with_entropy source env) Scenario.store Scenario.request
       = provision env Scenario.store Scenario.request)
  ∧ ∀ env' req' value,
      response_password (provision env' Scenario.store req').1 = Some value →
      store_fault env' 1%nat = false
      ∧ status (provision env' Scenario.store req').1 = 200
      ∧ ∃ id' row' password,
          value = JStr password
          ∧ devices (provision env' Scenario.store req').2 !! id' = Some row'
          ∧ mqtt_password_hash row' = Some (hashPassword password)
          ∧ is_provisioned row' = true.
Proof.
  apply (provision_write_failure Scenario.env_write_fails Scenario.store
           Scenario.request Scenario.token Scenario.device Scenario.row
           Scenario.project_row).
  - apply valid_body_checks. vm_compute. split; reflexivity.
  - apply select_by_token_sole. vm_compute. reflexivity.
  - reflexivity.
  - vm_compute. reflexivity.
  - reflexivity.
  - reflexivity.
Defined.

(** C8. A provisioning request whose token of 64 characters no device holds
    is answered 401, with the two fixed messages and nothing else, and the
    store is left as it was. The token is the only credential of the call:
    the [Authorization] header has no part in the outcome. *)
Theorem provision_unknown_token env st req tok :
  valid_body req tok →
  (∀ id d, devices st !! id = Some d → device_token d ≠ tok) →
  provision env st req
  = (res_json 401
       (JObj [ ("error", JStr "Invalid device token");
               ("message", JStr "Device not found or token is incorrect") ]),
     st)
  ∧ status (provision env st req).1 = 401
  ∧ ∀ authorization,
      provision env st (with_authorization authorization req) = provision env st req.
Proof.
  intros [Htok Hchecks]%valid_body_checks Hnone.
  assert (provision env st req = (invalid_device_token, st)) as Heq.
  { unfold provision. rewrite Hchecks, Htok. cbn [validate]. unfold provision_handler.
    rewrite (select_by_token_none st tok Hnone). by destruct (store_fault env 0%nat). }
  split; [exact Heq|]. split; [by rewrite Heq|]. reflexivity.
Qed.

Lemma provision_unknown_token_witness :
  let req := with_authorization (Some "Bearer owner-jwt") Scenario.second_request in
  let st := Scenario.store in
  provision Scenario.env st req
  = (res_json 401
       (JObj [ ("error", JStr "Invalid device token");
               ("message", JStr "Device not found or token is incorrect") ]),
     st)
  ∧ status (provision Scenario.env st req).1 = 401
  ∧ ∀ authorization,
      provision Scenario.env st (with_authorization authorization req)
      = provision Scenario.env st req.
Proof.
  apply (provision_unknown_token Scenario.env Scenario.store _ Scenario.other_token).
  - apply valid_body_checks. vm_compute. split; reflexivity.
  - intros id d Hl. unfold Scenario.store in Hl. cbn [devices] in Hl.
    apply lookup_singleton_Some in Hl as [_ <-]. vm_compute. discriminate.
Defined.

(** ** The device routes *)

Lemma user_device_lookup st uid id d :
  user_device st uid id = inr d ↔
  devices st !! id = Some d ∧ owns_project st uid (project_id d) = true.
Proof.
  unfold user_device. split.
  - by repeat case_match; intros [= <-].
  - by intros [-> ->].
Qed.

Lemma authenticate_rejects getUser req r :
  authenticate getUser req = inl r → status r = 401 ∨ status r = 500.
Proof.
  unfold authenticate. repeat case_match; intros [= <-]; cbn; auto.
Qed.

Lemma apply_updates_frame updates d :
  same_but_name_and_hardware_type d (fold_left apply_update updates d).
Proof.
  revert d. induction updates as [|u updates IH]; intros d; cbn [fold_left].
  - by repeat split.
  - specialize (IH (apply_update d u)).
    assert (same_but_name_and_hardware_type d (apply_update d u)) as Hu.
    { unfold apply_update. repeat case_match; by repeat split. }
    unfold same_but_name_and_hardware_type in *.
    destruct IH as (-> & -> & -> & -> & -> & -> & -> & -> & ->).
    exact Hu.
Qed.

(** The responses that end a request early hold no secret. *)
Create HintDb keys.
#[local] Hint Resolve has_key_authenticate has_key_failed has_key_validation_failed : keys.

(** Case analysis on every [match] and [if] of an unfolded route. *)
Ltac route_cases := repeat case_match; simplify_eq; cbn [fst snd].

Section DeviceRouteProperties.

Variable isUUID : string → bool.
Variable getUser : string → AuthResult.

(** Every run of an operation has one of the effects. *)
Lemma run_effect op env st req :
  Effect st req op (run isUUID getUser op env st req).2.
Proof.
  destruct op; cbn [run].
  - destruct (provision_outcome env st req) as [| | | |tok id device project ? ? Hsole];
      cbn [snd]; try apply Effect_none.
    apply Effect_provision, Hsole.
  - unfold list_devices, authenticated, validate.
    route_cases; apply Effect_none.
  - unfold get_device, authenticated, validate.
    route_cases; apply Effect_none.
  - unfold create_device, authenticated, validate.
    route_cases; try apply Effect_none.
    all: match goal with
         | H : _ || _ || bool_decide (is_Some _) = false |- _ =>
             apply orb_false_elim in H as [[_ Hfree]%orb_false_elim Hnew];
             apply bool_decide_eq_false in Hnew
         end.
    all: apply Effect_create; [by apply eq_None_not_Some|exact Hfree].
  - unfold patch_device, authenticated, validate.
    route_cases; try apply Effect_none.
    all: apply Effect_patch.
    all: match goal with H : user_device _ _ _ = inr _ |- _ =>
           apply user_device_lookup in H as [H _]; exact H end.
  - unfold delete_device, authenticated, validate.
    route_cases; try apply Effect_none.
    all: match goal with H : user_device _ _ _ = inr _ |- _ =>
           apply user_device_lookup in H as [H _]; by eapply Effect_delete end.
  - unfold regenerate_token, authenticated, validate.
    route_cases; try apply Effect_none.
    all: match goal with H : user_device _ _ _ = inr _ |- _ =>
           apply user_device_lookup in H as [H _]; by apply Effect_regenerate end.
Qed.

(** The regeneration route on a device the caller owns, with a fresh token. *)
Lemma regenerate_token_success env st req uid d tok :
  authenticate getUser req = inr uid →
  isUUID (params_id req) = true →
  user_device st uid (params_id req) = inr d →
  generate_device_token env = Some tok →
  token_in_use st (params_id req) tok = false →
  store_fault env 0%nat = false →
  regenerate_token isUUID getUser env st req
  = (res_json 200
       (JObj [ ("device", JObj (row_fields (params_id req) (regenerated_row d tok)));
               ("message",
                JStr "New device_token generated. Save it! The old token is now invalid.") ]),
     with_devices st (<[params_id req := regenerated_row d tok]> (devices st))).
Proof.
  intros Hauth Hid Hdev Htok Hfree Hfault.
  unfold regenerate_token, authenticated, validate, check_id.
  by rewrite Hauth, Hid, Hfault, Hdev, Htok, Hfree.
Qed.

Lemma regenerate_token_200 env st req :
  status (regenerate_token isUUID getUser env st req).1 = 200 →
  ∃ uid d tok,
    authenticate getUser req = inr uid
    ∧ isUUID (params_id req) = true
    ∧ user_device st uid (params_id req) = inr d
    ∧ generate_device_token env = Some tok
    ∧ token_in_use st (params_id req) tok = false
    ∧ store_fault env 0%nat = false.
Proof.
  unfold regenerate_token, authenticated, validate, check_id.
  repeat case_match; simplify_eq; cbn [fst status res_json failed]; try discriminate;
    intros H200.
  - match goal with H : authenticate _ _ = inl _ |- _ =>
      apply authenticate_rejects in H as [Hs | Hs] end;
      rewrite Hs in H200; discriminate.
  - eexists _, _, _. repeat split; eassumption.
Qed.

Lemma list_devices_has_key k env st req :
  secret k → body_has_key k (list_devices isUUID getUser env st req).1 = false.
Proof.
  intros Hk. unfold list_devices, authenticated, validate.
  route_cases; eauto with keys.
  all: unfold body_has_key, res_json; cbn [body]; by apply has_key_device_list.
Qed.

Lemma get_device_has_key k env st req :
  secret k → body_has_key k (get_device isUUID getUser env st req).1 = false.
Proof.
  intros Hk. unfold get_device, authenticated, validate, check_id.
  route_cases; eauto with keys.
  unfold body_has_key, res_json; cbn [body]. apply has_key_sanitized; [done|].
  match goal with
  | |- has_key k (stringify (JObj [?a; ?b])) = false =>
      change (has_key k (stringify (JObj ([a] ++ [b]))) = false)
  end.
  by rewrite has_key_stringify_app, has_key_project_json, has_key_channels.
Qed.

Lemma patch_device_has_key k env st req :
  secret k → body_has_key k (patch_device isUUID getUser env st req).1 = false.
Proof.
  intros Hk. unfold patch_device, authenticated, validate, check_id.
  route_cases; eauto with keys.
  all: unfold body_has_key, res_json; cbn [body].
  all: by apply (has_key_sanitized k _ _ []).
Qed.

Lemma delete_device_has_key k env st req :
  secret k → body_has_key k (delete_device isUUID getUser env st req).1 = false.
Proof.
  intros Hk. unfold delete_device, authenticated, validate, check_id.
  route_cases; eauto with keys.
Qed.

(** The creation route returns the token of the new device, never a hash. *)
Lemma create_device_has_key k env st req :
  k = "mqtt_password_hash" ∨ k = "password" →
  body_has_key k (create_device isUUID getUser env st req).1 = false.
Proof.
  intros Hk. assert (secret k) as Hs by (unfold secret; tauto).
  unfold create_device, authenticated, validate.
  route_cases; eauto with keys.
  all: by destruct Hk as [-> | ->].
Qed.

(** The regeneration route returns the row it wrote: the new token, and
    [null] for the hash. *)
Lemma regenerate_token_has_key env st req :
  let r := (regenerate_token isUUID getUser env st req).1 in
  body_has_key "password" r = false ∧ body_exposes "mqtt_password_hash" r = false.
Proof.
  assert (secret "password" ∧ secret "mqtt_password_hash") as [Hp Hh]
    by (unfold secret; tauto).
  unfold regenerate_token, authenticated, validate, check_id.
  route_cases; try (split; [|apply body_exposes_has_key]; eauto with keys; fail).
  match goal with
  | |- context [regenerated_row ?d ?t] =>
      destruct d as [? ? ? ? ? [?|] [?|] [?|] [?|] [?|] ?]; by split
  end.
Qed.

End DeviceRouteProperties.

(** ** What the effects keep *)

Lemma store_invariant_insert st id row :
  store_invariant st → credentials_invariant row →
  store_invariant (with_devices st (<[id := row]> (devices st))).
Proof.
  intros Hst Hrow id' d'. cbn. rewrite lookup_insert.
  case_decide; [by intros [= <-]|]. apply Hst.
Qed.

Lemma credentials_invariant_provisioned device username hash mac_address' fw at_ :
  credentials_invariant (provisioned_row device username hash mac_address' fw at_).
Proof. unfold credentials_invariant; cbn. by split. Qed.

Lemma credentials_invariant_regenerated d tok :
  credentials_invariant (regenerated_row d tok).
Proof. unfold credentials_invariant; cbn. split; [done|by intros [? _]]. Qed.

Lemma credentials_invariant_inserted p n h t c :
  credentials_invariant (inserted_row p n h t c).
Proof. unfold credentials_invariant; cbn. split; [done|by intros [? _]]. Qed.

Lemma credentials_invariant_patched updates d :
  credentials_invariant d → credentials_invariant (fold_left apply_update updates d).
Proof.
  destruct (apply_updates_frame updates d) as (_ & _ & Hp & Hu & Hh & _).
  unfold credentials_invariant. by rewrite Hp, Hu, Hh.
Qed.

Lemma effect_store_invariant st req op st' :
  Effect st req op st' → store_invariant st → store_invariant st'.
Proof.
  intros [ | | |d Hd|d channels Hd| ] Hinv; try done.
  - apply store_invariant_insert; [done|apply credentials_invariant_provisioned].
  - apply store_invariant_insert; [done|apply credentials_invariant_inserted].
  - apply store_invariant_insert; [done|].
    apply credentials_invariant_patched. by eapply Hinv.
  - intros id' d'; cbn. rewrite lookup_delete. case_decide; [done|]. apply Hinv.
  - apply store_invariant_insert; [done|apply credentials_invariant_regenerated].
Qed.

(** The uniqueness constraint on tokens is kept as well. *)
Lemma effect_unique_tokens st req op st' :
  Effect st req op st' → unique_tokens st → unique_tokens st'.
Proof.
  intros [ |id device ? ? ? ? ? Hl|id ? ? ? t ? _ Hfree|d Hd|d channels Hd|d t Hd Hfree]
    Huniq; try done.
  - by apply (unique_tokens_insert_same st id device).
  - apply unique_tokens_insert; [done|]. by apply token_in_use_false.
  - apply (unique_tokens_insert_same st _ d); [done..|].
    by destruct (apply_updates_frame (patch_updates req) d) as (_ & -> & _).
  - intros i j di dj; cbn. rewrite !lookup_delete. repeat case_decide; try done.
    apply Huniq.
  - apply unique_tokens_insert; [done|]. by apply token_in_use_false.
Qed.

(** An operation keeps the [projects] table, and the project of a device
    that is there before and after. *)
Lemma effect_project st req op st' :
  Effect st req op st' →
  projects st' = projects st
  ∧ ∀ id d d', devices st !! id = Some d → devices st' !! id = Some d' →
               project_id d' = project_id d.
Proof.
  destruct 1 as [ |id0 device ? ? ? ? ? Hl|id0 ? ? ? ? ? Hl|d0 Hl|d0 ? Hl|d0 ? Hl];
    (split; [reflexivity|]); intros id d d'; cbn [devices with_devices].
  - congruence.
  - rewrite lookup_insert. case_decide; [|congruence].
    subst. rewrite Hl. by intros [= <-] [= <-].
  - rewrite lookup_insert. case_decide; congruence.
  - rewrite lookup_insert. case_decide as Hid; [rewrite <- Hid|congruence].
    rewrite Hl. intros [= <-] [= <-].
    by destruct (apply_updates_frame (patch_updates req) d0) as [-> _].
  - rewrite lookup_delete. case_decide; congruence.
  - rewrite lookup_insert. case_decide as Hid; [rewrite <- Hid|congruence].
    rewrite Hl. by intros [= <-] [= <-].
Qed.

Lemma effect_patch_frame st req st' :
  Effect st req PatchDevice st' →
  (∀ id d, devices st !! id = Some d →
           ∃ d', devices st' !! id = Some d' ∧ same_but_name_and_hardware_type d d')
  ∧ (∀ id, devices st !! id = None → devices st' !! id = None)
  ∧ (∀ id, id ≠ params_id req → devices st' !! id = devices st !! id)
  ∧ projects st' = projects st
  ∧ device_channels st' = device_channels st.
Proof.
  inversion 1 as [| | |d0 Hl| |]; subst;
    cbn [devices projects device_channels with_devices].
  - repeat split; try done. intros id d Hd. exists d. split; [done|by repeat split].
  - repeat split; try done.
    + intros id d Hd. rewrite lookup_insert. case_decide as Hid.
      * rewrite <- Hid, Hl in Hd. injection Hd as <-.
        eexists. split; [reflexivity|apply apply_updates_frame].
      * exists d. split; [done|by repeat split].
    + intros id Hd. rewrite lookup_insert_ne; [done|]. intros <-. congruence.
    + intros id Hne. by rewrite lookup_insert_ne.
Qed.

(** Both hold in every store the API reaches from one without devices: the
    hypotheses of the theorems on the store are met there. *)
Lemma reachable_invariants isUUID getUser st :
  reachable isUUID getUser st → store_invariant st ∧ unique_tokens st.
Proof.
  induction 1 as [st Hempty|st op env req _ [Hinv Huniq]].
  - split.
    + intros id d. rewrite Hempty. by rewrite lookup_empty.
    + intros i j di dj. rewrite Hempty. by rewrite lookup_empty.
  - pose proof (run_effect isUUID getUser op env st req) as Heff.
    eauto using effect_store_invariant, effect_unique_tokens.
Qed.

(** ** The credentials invariant *)

(** C3. The invariant [is_provisioned = true] iff both broker credentials
    are non-null is kept by every operation on devices, whatever the request
    and the environment. A provisioning that succeeds changes the store by
    one update, of one row, which sets both credentials and makes
    [is_provisioned] true. A regeneration by an owner, with a generated
    token no other device uses, changes the store by one update, of one row,
    which makes [is_provisioned] false and both credentials null. *)
Theorem credentials_invariant_preserved isUUID getUser :
  (∀ op env st req,
     store_invariant st → store_invariant (run isUUID getUser op env st req).2)
  ∧ (∀ env st req tok id device project,
       valid_body req tok →
       sole_holder st tok id device →
       is_provisioned device = false →
       projects st !! project_id device = Some project →
       store_fault env 0%nat = false →
       store_fault env 1%nat = false →
       ∃ row,
         (provision env st req).2 = with_devices st (<[id := row]> (devices st))
         ∧ is_provisioned row = true
         ∧ is_Some (mqtt_username row)
         ∧ is_Some (mqtt_password_hash row))
  ∧ (∀ env st req uid d tok,
       authenticate getUser req = inr uid →
       isUUID (params_id req) = true →
       devices st !! params_id req = Some d →
       owns_project st uid (project_id d) = true →
       generate_device_token env = Some tok →
       token_in_use st (params_id req) tok = false →
       store_fault env 0%nat = false →
       ∃ row,
         (regenerate_token isUUID getUser env st req).2
         = with_devices st (<[params_id req := row]> (devices st))
         ∧ is_provisioned row = false
         ∧ mqtt_username row = None
         ∧ mqtt_password_hash row = None).
Proof.
  split; [|split].
  - intros op env st req Hinv.
    by eapply effect_store_invariant, Hinv; apply run_effect.
  - intros env st req tok id device project Hbody Hsole Hprov Hproj Hfind Hwrite.
    rewrite (provision_resolved env st req tok id device project) by assumption.
    rewrite Hwrite. by eexists.
  - intros env st req uid d tok Hauth Hid Hl Howns Htok Hfree Hfault.
    rewrite (regenerate_token_success isUUID getUser env st req uid d tok)
      by (try apply user_device_lookup; auto).
    by eexists.
Qed.

Lemma credentials_invariant_preserved_witness :
  let regenerated :=
    regenerate_token Scenario.isUUID Scenario.getUser Scenario.env
      Scenario.provisioned_store (Scenario.owner_request Scenario.device None None) in
  (∃ row,
     (provision Scenario.env Scenario.store Scenario.request).2
     = with_devices Scenario.store (<[Scenario.device := row]> (devices Scenario.store))
     ∧ is_provisioned row = true
     ∧ is_Some (mqtt_username row)
     ∧ is_Some (mqtt_password_hash row))
  ∧ is_provisioned Scenario.provisioned_device = true
  ∧ (∃ row,
       regenerated.2
       = with_devices Scenario.provisioned_store
           (<[Scenario.device := row]> (devices Scenario.provisioned_store))
       ∧ is_provisioned row = false
       ∧ mqtt_username row = None
       ∧ mqtt_password_hash row = None).
Proof.
  destruct (credentials_invariant_preserved Scenario.isUUID Scenario.getUser)
    as (_ & Hprovision & Hregenerate).
  split; [|split; [reflexivity|]].
  - apply (Hprovision Scenario.env Scenario.store Scenario.request Scenario.token
             Scenario.device Scenario.row Scenario.project_row).
    + apply valid_body_checks. vm_compute. split; reflexivity.
    + apply select_by_token_sole. vm_compute. reflexivity.
    + reflexivity.
    + vm_compute. reflexivity.
    + reflexivity.
    + reflexivity.
  - apply (Hregenerate Scenario.env Scenario.provisioned_store
             (Scenario.owner_request Scenario.device None None) Scenario.owner
             Scenario.provisioned_device Scenario.other_token).
    + reflexivity.
    + reflexivity.
    + vm_compute. reflexivity.
    + vm_compute. reflexivity.
    + reflexivity.
    + vm_compute. reflexivity.
    + reflexivity.
Defined.

(** ** Token regeneration *)

(** C5. Token regeneration on a device the authenticated caller owns, with
    the token the database function generated: the row gets the new token,
    [is_provisioned] false and both broker credentials null, its other
    columns and the other rows stay; the response is a 200 whose [device]
    holds the new token, the only [device_token] property of the body; no
    response of the list, get, update, delete and provisioning routes has a
    [device_token] property. *)
Theorem regenerate_token_resets isUUID getUser env st req uid d tok :
  authenticate getUser req = inr uid →
  isUUID (params_id req) = true →
  devices st !! params_id req = Some d →
  owns_project st uid (project_id d) = true →
  generate_device_token env = Some tok →
  token_in_use st (params_id req) tok = false →
  store_fault env 0%nat = false →
  let r := (regenerate_token isUUID getUser env st req).1 in
  let st' := (regenerate_token isUUID getUser env st req).2 in
  status r = 200
  ∧ (∃ row,
       devices st' !! params_id req = Some row
       ∧ device_token row = tok
       ∧ is_provisioned row = false
       ∧ mqtt_username row = None
       ∧ mqtt_password_hash row = None
       ∧ project_id row = project_id d ∧ name row = name d
       ∧ hardware_type row = hardware_type d ∧ mac_address row = mac_address d
       ∧ firmware_version row = firmware_version d
       ∧ provisioned_at row = provisioned_at d ∧ created_at row = created_at d)
  ∧ (∀ id, id ≠ params_id req → devices st' !! id = devices st !! id)
  ∧ body_field "device" r ≫= get_field "device_token" = Some (JStr tok)
  ∧ (∃ j, body r = Some j ∧ count_key "device_token" j = 1%nat)
  ∧ ∀ op env' st'' req',
      op ≠ CreateDevice → op ≠ RegenerateToken →
      body_has_key "device_token" (run isUUID getUser op env' st'' req').1 = false.
Proof.
  intros Hauth Hid Hl Howner Htok Hfree Hfault r st'. subst r st'.
  assert (secret "device_token") as Hs by (unfold secret; tauto).
  rewrite (regenerate_token_success isUUID getUser env st req uid d tok)
    by (try apply user_device_lookup; auto).
  cbn [fst snd]. split; [reflexivity|].
  split; [eexists; split; [apply lookup_insert_eq|by repeat split]|].
  split; [intros id Hne; cbn; by rewrite lookup_insert_ne|].
  split; [|split].
  - by destruct d as [? ? ? ? ? [?|] [?|] [?|] [?|] [?|] ?].
  - eexists. split; [reflexivity|].
    by destruct d as [? ? ? ? ? [?|] [?|] [?|] [?|] [?|] ?].
  - intros [] env' st'' req' Hc Hr; cbn [run];
      auto using list_devices_has_key, get_device_has_key, patch_device_has_key,
        delete_device_has_key; try done.
    apply provision_has_key.
Qed.

Lemma regenerate_token_resets_witness :
  let req := Scenario.owner_request Scenario.device None None in
  let result :=
    regenerate_token Scenario.isUUID Scenario.getUser Scenario.env
      Scenario.provisioned_store req in
  is_provisioned Scenario.provisioned_device = true
  ∧ status result.1 = 200
  ∧ ∃ row,
      devices result.2 !! Scenario.device = Some row
      ∧ device_token row = Scenario.other_token
      ∧ is_provisioned row = false
      ∧ mqtt_username row = None
      ∧ mqtt_password_hash row = None.
Proof.
  intros req result. split; [reflexivity|].
  destruct (regenerate_token_resets Scenario.isUUID Scenario.getUser Scenario.env
              Scenario.provisioned_store req Scenario.owner Scenario.provisioned_device
              Scenario.other_token) as (H200 & (row & Hrow) & _).
  - reflexivity.
  - reflexivity.
  - vm_compute. reflexivity.
  - vm_compute. reflexivity.
  - reflexivity.
  - vm_compute. reflexivity.
  - reflexivity.
  - split; [exact H200|]. exists row.
    destruct Hrow as (? & ? & ? & ? & ? & _). by repeat split.
Defined.

(** ** Topic namespace *)

(** C6. The [topics] of a success response are a function of the owner's
    user id and the device id alone: [u/{ownerId}/d/{deviceId}/cmd/#],
    [u/{ownerId}/d/{deviceId}/state/] and [u/{ownerId}/d/{deviceId}/tel/].
    They are the same when the device is provisioned again after another
    operation, token regeneration in particular, whatever the entropy, the
    clock, the credentials and the other columns of the row have become. *)
Theorem topics_stable isUUID getUser op env1 env2 env3 st req1 req2 req3 :
  let first := provision env1 st req1 in
  let between := run isUUID getUser op env2 first.2 req2 in
  let second := provision env3 between.2 req3 in
  status first.1 = 200 →
  status second.1 = 200 →
  response_client_id second.1 = response_client_id first.1 →
  (∀ ownerId deviceId,
     topics ownerId deviceId
     = JObj [ ("subscribe", JStr ("u/" +:+ ownerId +:+ "/d/" +:+ deviceId +:+ "/cmd/#"));
              ("state_prefix",
               JStr ("u/" +:+ ownerId +:+ "/d/" +:+ deviceId +:+ "/state/"));
              ("telemetry_prefix",
               JStr ("u/" +:+ ownerId +:+ "/d/" +:+ deviceId +:+ "/tel/")) ])
  ∧ ∃ deviceId device project,
      devices st !! deviceId = Some device
      ∧ projects st !! project_id device = Some project
      ∧ response_client_id first.1 = Some (JStr deviceId)
      ∧ body_field "topics" first.1 = Some (topics (user_id project) deviceId)
      ∧ body_field "topics" second.1 = body_field "topics" first.1.
Proof.
  intros first between second H1 H2 Hsame. subst second between first.
  split; [intros; unfold topics, topicBase; by rewrite !string_app_assoc|].
  destruct (provision_200 _ _ _ H1)
    as (tok & id & device & project & (Hl & _) & Hproj & Heq1).
  rewrite Heq1 in *. cbn [fst snd] in *.
  match type of H2 with
  | context [run _ _ _ _ ?st1 _] =>
      pose proof (run_effect isUUID getUser op env2 st1 req2) as Heff
  end.
  apply effect_project in Heff as [Hprojects Hframe].
  destruct (provision_200 _ _ _ H2)
    as (tok' & id' & device' & project' & (Hl' & _) & Hproj' & Heq2).
  rewrite Heq2 in *. cbn [fst snd] in *.
  rewrite !response_client_id_credentials in Hsame. injection Hsame as ->.
  rewrite !topics_credentials.
  assert (project' = project) as ->.
  { rewrite Hprojects in Hproj'. cbn [projects with_devices] in Hproj'.
    erewrite Hframe in Hproj'; [|apply lookup_insert_eq|exact Hl'].
    cbn [project_id provisioned_row] in Hproj'. congruence. }
  by exists id, device, project.
Qed.

Lemma topics_stable_witness :
  let first := provision Scenario.env Scenario.store Scenario.request in
  let between :=
    regenerate_token Scenario.isUUID Scenario.getUser Scenario.env first.2
      (Scenario.owner_request Scenario.device None None) in
  let second := provision Scenario.env between.2 Scenario.second_request in
  status first.1 = 200 ∧ status between.1 = 200 ∧ status second.1 = 200
  ∧ body_field "topics" second.1 = body_field "topics" first.1
  ∧ body_field "topics" first.1
    = Some (JObj [ ("subscribe",
                    JStr "u/11111111-1111-4111-8111-111111111111/d/22222222-2222-4222-8222-222222222222/cmd/#");
                   ("state_prefix",
                    JStr "u/11111111-1111-4111-8111-111111111111/d/22222222-2222-4222-8222-222222222222/state/");
                   ("telemetry_prefix",
                    JStr "u/11111111-1111-4111-8111-111111111111/d/22222222-2222-4222-8222-222222222222/tel/") ]).
Proof.
  intros first between second.
  assert (status first.1 = 200) as H1 by (vm_compute; reflexivity).
  assert (status second.1 = 200) as H2 by (vm_compute; reflexivity).
  assert (response_client_id second.1 = response_client_id first.1) as H3
    by (vm_compute; reflexivity).
  destruct (topics_stable Scenario.isUUID Scenario.getUser RegenerateToken
              Scenario.env Scenario.env Scenario.env Scenario.store Scenario.request
              (Scenario.owner_request Scenario.device None None)
              Scenario.second_request H1 H2 H3)
    as (_ & deviceId & device & project & _ & _ & _ & _ & Hsame).
  split; [exact H1|]. split; [vm_compute; reflexivity|]. split; [exact H2|].
  split; [exact Hsame|]. vm_compute. reflexivity.
Defined.

(** ** Responses and the stored hashes *)








Lemma sanitize_with_hash h id d extra :
  sanitize (row_fields id (with_hash h d) ++ extra) = sanitize (row_fields id d ++ extra).
Proof. done. Qed.











(** ** The frame of the update route *)

(** C10. [PATCH /api/devices/:id] writes [name] and [hardware_type] only:
    whatever the request, every device is still there with all its other
    columns as before, no device appears, and the projects and channels are
    untouched. A request with neither property leaves the store as it was,
    and is answered 400 once the caller is authenticated. *)
Theorem patch_device_frame isUUID getUser env st req :
  let r := (patch_device isUUID getUser env st req).1 in
  let st' := (patch_device isUUID getUser env st req).2 in
  (∀ id d, devices st !! id = Some d →
           ∃ d', devices st' !! id = Some d' ∧ same_but_name_and_hardware_type d d')
  ∧ (∀ id, devices st !! id = None → devices st' !! id = None)
  ∧ (∀ id, id ≠ params_id req → devices st' !! id = devices st !! id)
  ∧ projects st' = projects st
  ∧ device_channels st' = device_channels st
  ∧ (body_name req = None → body_hardware_type req = None →
     st' = st
     ∧ (∀ uid, authenticate getUser req = inr uid → status r = 400)
     ∧ (status r = 400 ∨ status r = 401 ∨ status r = 500)).
Proof.
  cbv zeta.
  pose proof (effect_patch_frame st req _
                (run_effect isUUID getUser PatchDevice env st req))
    as (H1 & H2 & H3 & H4 & H5).
  cbn [run] in *. repeat (split; [assumption|]).
  intros Hname Hhw.
  assert (patch_updates req = []) as Hnone
    by (unfold patch_updates; by rewrite Hname, Hhw).
  unfold patch_device, authenticated, validate, check_id, check_trimmed_length.
  rewrite Hnone, Hname. cbn [length Nat.eqb app].
  split; [by repeat case_match|]. split.
  - intros uid ->. by case_match.
  - repeat case_match; cbn; auto.
    match goal with H : authenticate _ _ = inl _ |- _ =>
      apply authenticate_rejects in H as [-> | ->] end; auto.
Qed.

Example patch_device_scenario :
  let patch := patch_device Scenario.isUUID Scenario.getUser Scenario.env
                 Scenario.provisioned_store in
  devices (patch (Scenario.owner_request Scenario.device (Some " Hall Plug ") None)).2
    !! Scenario.device
  = Some (apply_update Scenario.provisioned_device ("name", "Hall Plug"))
  ∧ status (patch (Scenario.owner_request Scenario.device (Some " Hall Plug ") None)).1
    = 200
  ∧ status (patch (Scenario.owner_request Scenario.device None None)).1 = 400
  ∧ status (patch (Scenario.owner_request Scenario.device None (Some "  "))).1 = 400
  ∧ status (patch (Scenario.owner_request Scenario.project (Some "x") None)).1 = 404
  ∧ status (patch (with_authorization None
                     (Scenario.owner_request Scenario.device None None))).1 = 401.
Proof. vm_compute. auto 10. Qed.

(** * Further properties *)

(** ** Slugs *)

Lemma string_forall_slice_0 p n s :
  string_forall p s = true → string_forall p (slice_0 n s) = true.
Proof.
  revert s. induction n as [|n IH]; intros [|c r]; cbn; try done.
  intros [-> Hr]%andb_prop. by rewrite IH.
Qed.

Lemma slice_0_all n s : (String.length s <= n)%nat → slice_0 n s = s.
Proof.
  revert s. induction n as [|n IH]; intros [|c r]; cbn; try done; try lia.
  intros Hl. rewrite IH; [done|lia].
Qed.

(** A cut that is shorter than asked for cut nothing. *)
Lemma slice_0_short n s : (String.length (slice_0 n s) < n)%nat → slice_0 n s = s.
Proof.
  revert s. induction n as [|n IH]; intros [|c r]; cbn; try done; try lia.
  intros Hl. rewrite IH; [done|lia].
Qed.

Lemma starts_with_hyphen_slice_0 n s :
  starts_with_hyphen s = false → starts_with_hyphen (slice_0 n s) = false.
Proof. destruct n, s; done. Qed.

Lemma no_double_hyphen_slice_0 n s :
  no_double_hyphen s = true → no_double_hyphen (slice_0 n s) = true.
Proof.
  revert s. induction n as [|n IH]; intros [|c r]; cbn; try done.
  intros [Hc Hr]%andb_prop. rewrite IH by done. rewrite andb_true_r.
  destruct (Ascii.eqb c "-"); [|done]. cbn in *.
  destruct n, r; cbn in *; try done.
Qed.

Lemma replace_runs_alphabet b s : string_forall slug_alphabet (replace_runs b s) = true.
Proof.
  revert b. induction s as [|c r IH]; intros b; cbn; [done|].
  destruct (is_slug_char c) eqn:Hc.
  - cbn. unfold slug_alphabet at 1. by rewrite Hc, IH.
  - destruct b; [apply IH|]. cbn. by rewrite IH.
Qed.

(** After a run the text goes on with a slug character, if it goes on. *)
Lemma replace_runs_hyphens b s :
  no_double_hyphen (replace_runs b s) = true
  ∧ (b = true → starts_with_hyphen (replace_runs b s) = false).
Proof.
  revert b. induction s as [|c r IH]; intros b; cbn; [done|].
  destruct (is_slug_char c) eqn:Hc.
  - destruct (IH false) as [Hnd _]. cbn. rewrite Hnd.
    assert (Ascii.eqb c "-" = false) as ->.
    { apply Ascii.eqb_neq. intros ->. discriminate. }
    done.
  - destruct (IH true) as [Hnd Hs]. destruct b; [by split|].
    cbn. rewrite Hnd, Hs by done. by split.
Qed.

Lemma strip_leading_hyphen_spec s :
  no_double_hyphen s = true →
  starts_with_hyphen (strip_leading_hyphen s) = false
  ∧ no_double_hyphen (strip_leading_hyphen s) = true.
Proof.
  destruct s as [|c r]; cbn; [done|].
  destruct (Ascii.eqb c "-") eqn:Hc; cbn.
  - by intros [->%negb_true_iff ->]%andb_prop.
  - rewrite Hc. by intros ->.
Qed.

Lemma string_forall_strip_leading p s :
  string_forall p s = true → string_forall p (strip_leading_hyphen s) = true.
Proof.
  destruct s as [|c r]; cbn; [done|]. intros [Hc Hr]%andb_prop.
  destruct (Ascii.eqb c "-"); cbn; by rewrite ?Hc, ?Hr.
Qed.

Lemma string_forall_strip_trailing p s :
  string_forall p s = true → string_forall p (strip_trailing_hyphen s) = true.
Proof.
  induction s as [|c r IH]; cbn; [done|]. intros [Hc Hr]%andb_prop.
  destruct (Ascii.eqb c "-" && String.eqb r ""); cbn; [done|]. by rewrite Hc, IH.
Qed.

Lemma starts_with_hyphen_strip_trailing s :
  starts_with_hyphen s = false →
  starts_with_hyphen (strip_trailing_hyphen s) = false.
Proof.
  destruct s as [|c r]; cbn; [done|]. intros Hc. rewrite Hc. cbn. exact Hc.
Qed.

Lemma strip_trailing_hyphen_empty s :
  strip_trailing_hyphen s = "" → s = "" ∨ starts_with_hyphen s = true.
Proof.
  destruct s as [|c r]; cbn; [by left|].
  destruct (Ascii.eqb c "-"); [by right|]. done.
Qed.

Lemma strip_trailing_hyphen_spec s :
  no_double_hyphen s = true →
  no_double_hyphen (strip_trailing_hyphen s) = true
  ∧ ends_with_hyphen (strip_trailing_hyphen s) = false.
Proof.
  induction s as [|c r IH]; [done|].
  cbn [no_double_hyphen strip_trailing_hyphen].
  intros [Hc Hr]%andb_prop. destruct (IH Hr) as [Hnd Hend].
  destruct (Ascii.eqb c "-") eqn:Hh; cbn [andb negb] in *.
  - apply negb_true_iff in Hc.
    destruct (String.eqb r "") eqn:Hempty; [done|].
    cbn [no_double_hyphen ends_with_hyphen]. rewrite Hh, Hnd.
    rewrite (starts_with_hyphen_strip_trailing r Hc). split; [done|].
    destruct (strip_trailing_hyphen r) eqn:Hs; [|done].
    apply strip_trailing_hyphen_empty in Hs as [->|Hs]; [done|congruence].
  - cbn [no_double_hyphen ends_with_hyphen]. rewrite Hh, Hnd. split; [done|].
    by destruct (strip_trailing_hyphen r).
Qed.

Lemma strip_leading_hyphen_id s :
  starts_with_hyphen s = false → strip_leading_hyphen s = s.
Proof. destruct s as [|c r]; cbn; [done|]. by intros ->. Qed.

Lemma strip_trailing_hyphen_id s :
  ends_with_hyphen s = false → strip_trailing_hyphen s = s.
Proof.
  induction s as [|c r IH]; [done|]. cbn [strip_trailing_hyphen ends_with_hyphen].
  destruct r as [|d r'].
  - intros ->. done.
  - intros Hr. rewrite IH by done. by rewrite andb_false_r.
Qed.

Lemma toLowerCase_cons a r :
  toLowerCase (String a r)
  = match r with
    | String b r2 =>
        if is_dotted_I a b
        then String "i" (String "204" (String "135" (toLowerCase r2)))
        else
          match r2 with
          | String c r3 =>
              if is_kelvin a b c then String "k" (toLowerCase r3)
              else String (toLowerCase_char a) (toLowerCase r)
          | EmptyString => String (toLowerCase_char a) (toLowerCase r)
          end
    | EmptyString => String (toLowerCase_char a) EmptyString
    end.
Proof. by destruct r as [|b [|c r3]]. Qed.

Lemma toLowerCase_slug_alphabet s :
  string_forall slug_alphabet s = true → toLowerCase s = s.
Proof.
  induction s as [|a r IH]; [done|]. cbn [string_forall]. intros [Ha Hr]%andb_prop.
  specialize (IH Hr). rewrite toLowerCase_cons, IH.
  assert (toLowerCase_char a = a ∧ Ascii.eqb a "196" = false ∧ Ascii.eqb a "226" = false)
    as (-> & Hd & Hk) by (revert Ha; by destruct a as [[] [] [] [] [] [] [] []]).
  unfold is_dotted_I, is_kelvin. rewrite Hd, Hk. by destruct r as [|b [|c r3]].
Qed.

Lemma slug_alphabet_hyphen c :
  slug_alphabet c = true → is_slug_char c = false → c = "-"%char.
Proof.
  unfold slug_alphabet. intros Hc Hs. rewrite Hs in Hc. by apply Ascii.eqb_eq.
Qed.

Lemma replace_runs_id b s :
  string_forall slug_alphabet s = true →
  no_double_hyphen s = true →
  (b = true → starts_with_hyphen s = false) →
  replace_runs b s = s.
Proof.
  revert b. induction s as [|c r IH]; intros b; cbn; [done|].
  intros [Hc Hr]%andb_prop [Hd Hnd]%andb_prop Hb.
  destruct (is_slug_char c) eqn:Hs.
  - by rewrite (IH false).
  - pose proof (slug_alphabet_hyphen c Hc Hs) as ->. cbn in Hd, Hb.
    destruct b; [by specialize (Hb eq_refl)|].
    rewrite (IH true); try done. intros _. by apply negb_true_iff.
Qed.

(** X1. A generated slug has at most 50 characters, all of them lower-case
    letters, digits or hyphens. *)
Theorem generateSlug_alphabet name' :
  (String.length (generateSlug name') <= 50)%nat
  ∧ string_forall slug_alphabet (generateSlug name') = true.
Proof.
  split; [apply slice_0_length|].
  apply string_forall_slice_0, string_forall_strip_trailing,
    string_forall_strip_leading, replace_runs_alphabet.
Qed.

(** X2. A generated slug never starts with a hyphen and never has two
    hyphens in a row; it ends with a hyphen only when the cut at 50
    characters fell right after one. *)
Theorem generateSlug_hyphens name' :
  starts_with_hyphen (generateSlug name') = false
  ∧ no_double_hyphen (generateSlug name') = true
  ∧ (ends_with_hyphen (generateSlug name') = true →
     String.length (generateSlug name') = 50%nat).
Proof.
  unfold generateSlug.
  destruct (replace_runs_hyphens false (toLowerCase name')) as [Hnd _].
  destruct (strip_leading_hyphen_spec _ Hnd) as [Hstart Hnd'].
  destruct (strip_trailing_hyphen_spec _ Hnd') as [Hnd'' Hend].
  split; [|split].
  - by apply starts_with_hyphen_slice_0, starts_with_hyphen_strip_trailing.
  - by apply no_double_hyphen_slice_0.
  - intros Hcut.
    pose proof (slice_0_length 50
      (strip_trailing_hyphen (strip_leading_hyphen (replace_runs false (toLowerCase name'))))).
    destruct (decide (String.length (slice_0 50
      (strip_trailing_hyphen (strip_leading_hyphen (replace_runs false (toLowerCase name')))))
      = 50%nat)) as [|Hne]; [done|].
    rewrite slice_0_short in Hcut by lia. congruence.
Qed.

Lemma generateSlug_canonical s : canonical_slug s → generateSlug s = s.
Proof.
  intros (Hlen & Halpha & Hstart & Hend & Hnd). unfold generateSlug.
  rewrite toLowerCase_slug_alphabet, (replace_runs_id false) by done.
  by rewrite strip_leading_hyphen_id, strip_trailing_hyphen_id, slice_0_all.
Qed.

(** X3. A slug that is already in the form [generateSlug] writes is left as
    it is, and a generated slug shorter than 50 characters is in that form:
    generating a slug from it gives it back. *)
Theorem generateSlug_fixed_points :
  (∀ s, canonical_slug s → generateSlug s = s)
  ∧ ∀ name', (String.length (generateSlug name') < 50)%nat →
             canonical_slug (generateSlug name')
             ∧ generateSlug (generateSlug name') = generateSlug name'.
Proof.
  split; [exact generateSlug_canonical|]. intros name' Hlen.
  assert (canonical_slug (generateSlug name')) as Hcanon.
  { unfold generateSlug in *.
    destruct (replace_runs_hyphens false (toLowerCase name')) as [Hnd _].
    destruct (strip_leading_hyphen_spec _ Hnd) as [Hstart Hnd'].
    destruct (strip_trailing_hyphen_spec _ Hnd') as [Hnd'' Hend].
    rewrite slice_0_short in * by done.
    repeat split; try done; [lia| |].
    - apply string_forall_strip_trailing, string_forall_strip_leading,
        replace_runs_alphabet.
    - by apply starts_with_hyphen_strip_trailing. }
  split; [done|by apply generateSlug_canonical].
Qed.

Lemma replace_runs_empty b s :
  replace_runs b s = "" ∨ replace_runs b s = "-"
  ↔ string_forall (λ c, negb (is_slug_char c)) s = true.
Proof.
  revert b. induction s as [|c r IH]; intros b; cbn; [by split; auto|].
  destruct (is_slug_char c) eqn:Hs; cbn.
  - split; [|done]. intros [?|[= -> _]]; done.
  - destruct b; [apply IH|]. rewrite <- (IH true).
    destruct (replace_runs_hyphens true r) as [_ Hstart].
    split.
    + intros [?|[= ->]]; [done|by left].
    + intros [->|Hr]; [by right|]. rewrite Hr in Hstart. by specialize (Hstart eq_refl).
Qed.

Lemma is_slug_char_toLowerCase_char a :
  is_slug_char (toLowerCase_char a) = is_alphanumeric a.
Proof. by destruct a as [[] [] [] [] [] [] [] []]. Qed.

Lemma no_alphanumeric_toLowerCase s :
  no_alphanumeric s = string_forall (λ c, negb (is_slug_char c)) (toLowerCase s).
Proof.
  unfold no_alphanumeric. induction s as [|a r IH]; [done|].
  rewrite toLowerCase_cons. cbn [has_alphanumeric starts_with].
  rewrite !(Ascii.eqb_sym _ a).
  destruct r as [|b r2].
  - cbn. rewrite is_slug_char_toLowerCase_char, !Bool.andb_false_r. by destruct (is_alphanumeric a).
  - rewrite !(Ascii.eqb_sym _ b), Bool.andb_true_r. fold (is_dotted_I a b).
    destruct (is_dotted_I a b); [by rewrite Bool.orb_true_r|].
    destruct r2 as [|c r3].
    + cbn [string_forall]. rewrite is_slug_char_toLowerCase_char, <- IH.
      rewrite !Bool.andb_false_r, !Bool.orb_false_r. by rewrite negb_orb.
    + rewrite (Ascii.eqb_sym _ c), !Bool.andb_true_r, Bool.andb_assoc.
      fold (is_kelvin a b c).
      destruct (is_kelvin a b c); [by rewrite Bool.orb_true_r|].
      cbn [string_forall]. rewrite is_slug_char_toLowerCase_char, <- IH.
      rewrite !Bool.orb_false_r. by rewrite negb_orb.
Qed.

Lemma generateSlug_nil name' : generateSlug name' = "" → no_alphanumeric name' = true.
Proof.
  rewrite no_alphanumeric_toLowerCase, <- (replace_runs_empty false).
  unfold generateSlug.
  destruct (replace_runs_hyphens false (toLowerCase name')) as [Hnd _].
  destruct (strip_leading_hyphen_spec _ Hnd) as [Hstart _].
  remember (replace_runs false (toLowerCase name')) as R eqn:HR. clear HR.
  intros Hempty.
  assert (strip_trailing_hyphen (strip_leading_hyphen R) = "") as Ht.
  { destruct (strip_trailing_hyphen (strip_leading_hyphen R)); [done|discriminate]. }
  apply strip_trailing_hyphen_empty in Ht as [Hs|Hs]; [|congruence].
  destruct R as [|c r]; [by left|]. cbn in Hs.
  destruct (Ascii.eqb c "-") eqn:Hc; [|discriminate].
  apply Ascii.eqb_eq in Hc. subst. by right.
Qed.

(** X4. The generated slug is empty exactly when the name has no letter
    and no digit of ASCII and neither of U+0130 and U+212A, the two
    characters outside ASCII whose lower case has a letter of ASCII. *)
Theorem generateSlug_empty name' :
  generateSlug name' = "" ↔ no_alphanumeric name' = true.
Proof.
  split; [apply generateSlug_nil|].
  rewrite no_alphanumeric_toLowerCase, <- (replace_runs_empty false).
  unfold generateSlug. by intros [-> | ->].
Qed.

Example generateSlug_examples :
  generateSlug "Smart Home" = "smart-home"
  ∧ generateSlug "  My  IoT -- Project!  " = "my-iot-project"
  ∧ generateSlug "!!!" = ""
  ∧ generateSlug "aaaaaaaaaaaaaaaaaaaaaaaaaaaaaaaaaaaaaaaaaaaaaaaaa b"
    = "aaaaaaaaaaaaaaaaaaaaaaaaaaaaaaaaaaaaaaaaaaaaaaaaa-"
  ∧ generateSlug "aaaaaaaaaaaaaaaaaaaaaaaaaaaaaaaaaaaaaaaaaaaaaaaaa-"
    = "aaaaaaaaaaaaaaaaaaaaaaaaaaaaaaaaaaaaaaaaaaaaaaaaa".
Proof. vm_compute. auto 10. Qed.

(** ** The authentication middleware *)

Lemma split_space_word t rest :
  string_forall (λ c, negb (Ascii.eqb c " ")) t = true →
  split_space (t +:+ String " " rest) = t :: split_space rest
  ∧ split_space t = [t].
Proof.
  induction t as [|c r IH]; [done|].
  intros [Hc Hr]%andb_prop. apply negb_true_iff in Hc.
  destruct (IH Hr) as [IH1 IH2].
  change (String c r +:+ String " " rest) with (String c (r +:+ String " " rest)).
  cbn [split_space]. by rewrite Hc, IH1, IH2.
Qed.

Lemma authenticate_bearer getUser req t rest :
  string_forall (λ c, negb (Ascii.eqb c " ")) t = true →
  rest = "" ∨ (∃ junk, rest = String " " junk) →
  authenticate getUser (with_authorization (Some ("Bearer " +:+ t +:+ rest)) req)
  = match getUser t with
    | AuthUser uid => inr uid
    | AuthRejected => inl (unauthorized "Invalid or expired token")
    | AuthThrown =>
        inl (res_json 500 (JObj [ ("error", JStr "Internal Server Error");
                                  ("message", JStr "Authentication failed") ]))
    end.
Proof.
  intros Ht Hrest. unfold authenticate. cbn [headers_authorization with_authorization].
  change ("Bearer " +:+ t +:+ rest) with (String "B" (String "e" (String "a" (String "r"
    (String "e" (String "r" (String " " (t +:+ rest)))))))).
  cbn [String.prefix Ascii.ascii_dec negb split_space Ascii.eqb Bool.eqb nth].
  replace (split_space (t +:+ rest)) with (t :: match rest with
                                                | String _ junk => split_space junk
                                                | EmptyString => []
                                                end).
  { repeat (destruct (Ascii.ascii_dec _ _) as [_|?]; [|done]). by destruct (t +:+ rest). }
  destruct Hrest as [->|[junk ->]].
  - replace (t +:+ "") with t; [symmetry; by apply (split_space_word t "")|].
    clear. induction t as [|c r IH]; [done|].
    change (String c r +:+ "") with (String c (r +:+ "")). by rewrite <- IH.
  - symmetry. by apply split_space_word.
Qed.

(** X5. The token checked by [authenticate] is the text between [Bearer ]
    and the next space: what follows that space is never looked at, and the
    request goes on as the user the identity provider names for that token,
    and for no other reason. *)
Theorem authenticate_token getUser req t junk :
  string_forall (λ c, negb (Ascii.eqb c " ")) t = true →
  authenticate getUser (with_authorization (Some ("Bearer " +:+ t +:+ String " " junk)) req)
  = authenticate getUser (with_authorization (Some ("Bearer " +:+ t)) req)
  ∧ ∀ uid,
      authenticate getUser (with_authorization (Some ("Bearer " +:+ t)) req) = inr uid
      ↔ getUser t = AuthUser uid.
Proof.
  intros Ht.
  pose proof (authenticate_bearer getUser req t (String " " junk) Ht) as H1.
  pose proof (authenticate_bearer getUser req t "" Ht) as H2.
  assert (t +:+ "" = t) as Hnil.
  { clear. induction t as [|c r IH]; [done|].
    change (String c r +:+ "") with (String c (r +:+ "")). by rewrite IH. }
  rewrite Hnil in H2. rewrite H1, H2 by eauto. split; [done|].
  intros uid. destruct (getUser t); split; congruence.
Qed.

Lemma authenticate_token_witness :
  authenticate Scenario.getUser
    (with_authorization (Some "Bearer owner-jwt and more") Scenario.request)
  = authenticate Scenario.getUser
      (with_authorization (Some "Bearer owner-jwt") Scenario.request)
  ∧ ∀ uid,
      authenticate Scenario.getUser
        (with_authorization (Some "Bearer owner-jwt") Scenario.request) = inr uid
      ↔ Scenario.getUser "owner-jwt" = AuthUser uid.
Proof.
  apply (authenticate_token Scenario.getUser Scenario.request "owner-jwt" "and more").
  reflexivity.
Defined.

(** X6. [optionalAuth] against [authenticate]: it lets a request through as
    a user exactly when [authenticate] does, as that user; it lets a request
    through with no user exactly when [authenticate] answers that the header
    is missing or invalid; a bearer header whose token is refused ends the
    request with the response of [authenticate], a 401 or a 500. *)
Theorem optionalAuth_authenticate getUser req :
  (∀ uid, optionalAuth getUser req = inr (Some uid) ↔ authenticate getUser req = inr uid)
  ∧ (optionalAuth getUser req = inr None
     ↔ authenticate getUser req
       = inl (unauthorized "Missing or invalid Authorization header"))
  ∧ ∀ r, optionalAuth getUser req = inl r →
         authenticate getUser req = inl r ∧ (status r = 401 ∨ status r = 500).
Proof.
  unfold optionalAuth.
  destruct (headers_authorization req) as [authHeader|] eqn:Hh.
  - destruct (negb (String.prefix "Bearer " authHeader)) eqn:Hp.
    + unfold authenticate. rewrite Hh, Hp. repeat split; try done.
    + destruct (authenticate getUser req) as [r|uid] eqn:Ha.
      * repeat split; try done.
        -- intros [= ->]. unfold authenticate in Ha. rewrite Hh, Hp in Ha.
           by destruct (getUser _).
        -- congruence.
        -- apply authenticate_rejects in Ha. by simplify_eq.
      * repeat split; try congruence; done.
  - unfold authenticate. rewrite Hh. repeat split; try done.
Qed.

(** ** Provisioning: validation, the status of the answer, the written row *)

Lemma sole_holder_unique st tok id d id' d' :
  sole_holder st tok id d → sole_holder st tok id' d' → id' = id ∧ d' = d.
Proof.
  intros H1%select_by_token_sole H2%select_by_token_sole.
  rewrite H1 in H2. by injection H2 as -> ->.
Qed.

(** X7. For a body whose properties are strings, [provision] answers 400
    exactly when the body fails the checks: the token is missing or has not
    64 characters as [isLength] counts them, or there is a MAC address and
    it is not of the six-octet form. The 400 is decided before the store and
    the environment are looked at: the same request gets the same answer
    from any store under any environment, and the store is returned as it
    was. *)
Theorem provision_validation env st req :
  (status (provision env st req).1 = 400 ↔ ∀ tok, ¬ valid_body req tok)
  ∧ (status (provision env st req).1 = 400 →
     ∀ env' st', provision env' st' req = ((provision env st req).1, st')).
Proof.
  destruct (provision_checks req) as [|e errors] eqn:Hchecks.
  - assert (status (provision env st req).1 ≠ 400) as Hne.
    { destruct (provision_outcome env st req); cbn; try done. congruence. }
    split; [|done]. split; [done|]. intros Hno. exfalso.
    destruct (body_device_token req) as [tok|] eqn:Htok.
    + apply (Hno tok), valid_body_checks. by split.
    + unfold provision_checks in Hchecks. by rewrite Htok in Hchecks.
  - unfold provision. rewrite Hchecks. cbn. split; [|done].
    split; [|done]. intros _ tok [_ Hnil]%valid_body_checks. congruence.
Qed.

(** X8. For a body that passes the checks, the status of the answer of
    [provision] is decided by the lookup of the token, the [is_provisioned]
    flag of the device found, the presence of its project and the outcome of
    the write, and by nothing else: 401 exactly when the lookup fails or
    does not find one device; 409 exactly when the device found is
    provisioned; 500 exactly when it is not and its project is missing or
    the write fails; 200 in the remaining case. *)
Theorem provision_status env st req tok :
  valid_body req tok →
  let s := status (provision env st req).1 in
  let found d := store_fault env 0%nat = false ∧ ∃ id, sole_holder st tok id d in
  (s = 401 ↔ ¬ ∃ d, found d)
  ∧ (s = 409 ↔ ∃ d, found d ∧ is_provisioned d = true)
  ∧ (s = 500 ↔ ∃ d, found d ∧ is_provisioned d = false
                     ∧ (projects st !! project_id d = None
                        ∨ store_fault env 1%nat = true))
  ∧ (s = 200 ↔ ∃ d, found d ∧ is_provisioned d = false
                     ∧ is_Some (projects st !! project_id d)
                     ∧ store_fault env 1%nat = false).
Proof.
  intros [Htok Hchecks]%valid_body_checks. cbv beta zeta.
  unfold provision. rewrite Hchecks, Htok. cbn [validate]. unfold provision_handler.
  destruct (store_fault env 0%nat) eqn:Hfind.
  { cbn. repeat split; try done; try (by intros _ (d & [? _]));
      by intros (d & [? _] & _). }
  destruct (select_by_token st tok) as [|[id device] [|row rows]] eqn:Hsel; cbn [single].
  1, 3: assert (∀ id' d, ¬ sole_holder st tok id' d) as Hno
          by (intros id' d Hs%select_by_token_sole; congruence);
        cbn; repeat split; try done;
        try (by intros _ (d & _ & id' & Hd%Hno)); by intros (d & (_ & id' & Hd%Hno) & _).
  apply select_by_token_sole in Hsel.
  assert (∀ d, (store_fault env 0%nat = false ∧ ∃ id', sole_holder st tok id' d)
               → d = device) as Hthe.
  { intros d (_ & id' & Hs). by destruct (sole_holder_unique st tok id device id' d). }
  assert (store_fault env 0%nat = false ∧ ∃ id', sole_holder st tok id' device)
    as Hfound by eauto.
  rewrite Hfind in *.
  destruct (is_provisioned device) eqn:Hprov;
    [|destruct (projects st !! project_id device) as [project|] eqn:Hproj;
      [destruct (store_fault env 1%nat) eqn:Hwrite|]];
    cbn [fst status credentials res_json already_provisioned provisioning_failed];
    repeat split; try done;
    try (intros Hno; exfalso; apply Hno; by exists device);
    try (intros _; exists device; rewrite ?Hproj; split; [exact Hfound|]; by eauto);
    intros (d & Hd & HQ); pose proof (Hthe d Hd); subst d;
    destruct_and?; destruct_or?;
    repeat match goal with H : is_Some _ |- _ => destruct H end; congruence.
Qed.

Lemma provision_status_witness :
  let s := status (provision Scenario.env Scenario.store Scenario.request).1 in
  let found d :=
    store_fault Scenario.env 0%nat = false
    ∧ ∃ id, sole_holder Scenario.store Scenario.token id d in
  (s = 401 ↔ ¬ ∃ d, found d)
  ∧ (s = 409 ↔ ∃ d, found d ∧ is_provisioned d = true)
  ∧ (s = 500 ↔ ∃ d, found d ∧ is_provisioned d = false
                     ∧ (projects Scenario.store !! project_id d = None
                        ∨ store_fault Scenario.env 1%nat = true))
  ∧ (s = 200 ↔ ∃ d, found d ∧ is_provisioned d = false
                     ∧ is_Some (projects Scenario.store !! project_id d)
                     ∧ store_fault Scenario.env 1%nat = false).
Proof.
  apply (provision_status Scenario.env Scenario.store Scenario.request Scenario.token).
  apply valid_body_checks. vm_compute. split; reflexivity.
Defined.

(** X9. What a successful provisioning writes: one row, that of a device
    that was there. The row keeps its project, name, hardware type, token
    and creation time; its MAC address and firmware version are those of the
    request where the request has them and the former ones where it has not;
    [provisioned_at] is the time of the request. Every other row, the
    projects and the channels are as before. *)
Theorem provision_frame env st req :
  status (provision env st req).1 = 200 →
  let st' := (provision env st req).2 in
  ∃ id d d',
    devices st !! id = Some d
    ∧ devices st' !! id = Some d'
    ∧ (∀ id', id' ≠ id → devices st' !! id' = devices st !! id')
    ∧ projects st' = projects st
    ∧ device_channels st' = device_channels st
    ∧ project_id d' = project_id d ∧ name d' = name d
    ∧ hardware_type d' = hardware_type d ∧ device_token d' = device_token d
    ∧ created_at d' = created_at d
    ∧ mac_address d' = from_option Some (mac_address d) (body_mac_address req)
    ∧ firmware_version d'
      = from_option Some (firmware_version d) (body_firmware_version req)
    ∧ provisioned_at d' = Some (clock env).
Proof.
  intros H200. cbv zeta.
  destruct (provision_200 env st req H200)
    as (tok & id & device & project & (Hl & _) & _ & ->).
  cbn [snd]. exists id, device. eexists.
  split; [done|]. split; [cbn; apply lookup_insert_eq|].
  split; [intros id' Hne; cbn; by rewrite lookup_insert_ne|].
  cbn. by repeat split.
Qed.

Lemma provision_frame_witness :
  let st := Scenario.store in
  let st' := (provision Scenario.env st Scenario.request).2 in
  ∃ id d d',
    devices st !! id = Some d
    ∧ devices st' !! id = Some d'
    ∧ (∀ id', id' ≠ id → devices st' !! id' = devices st !! id')
    ∧ projects st' = projects st
    ∧ device_channels st' = device_channels st
    ∧ project_id d' = project_id d ∧ name d' = name d
    ∧ hardware_type d' = hardware_type d ∧ device_token d' = device_token d
    ∧ created_at d' = created_at d
    ∧ mac_address d'
      = from_option Some (mac_address d) (body_mac_address Scenario.request)
    ∧ firmware_version d'
      = from_option Some (firmware_version d)
          (body_firmware_version Scenario.request)
    ∧ provisioned_at d' = Some (clock Scenario.env).
Proof.
  apply (provision_frame Scenario.env Scenario.store Scenario.request).
  vm_compute. reflexivity.
Defined.

(** ** The password keeps the random bytes *)

(** X10. The base64url text of [toString('base64url')] stands for the bytes
    it was made from, whatever their number, so the password keeps all of
    the 24 random bytes: two draws that differ in one of them give two
    different passwords. *)
Theorem generateSecurePassword_keeps_bytes :
  (∀ bs, base64url_decode (Crypto.base64url bs) = bs)
  ∧ ∀ source source',
      generateSecurePassword source = generateSecurePassword source' →
      ∀ i, (i < 24)%nat → source i = source' i.
Proof.
  split; [exact base64url_decode_base64url|].
  intros source source' Heq i Hi. unfold generateSecurePassword in Heq.
  apply (f_equal base64url_decode) in Heq.
  rewrite !base64url_decode_base64url in Heq. unfold Crypto.randomBytes in Heq.
  apply (f_equal (λ l, l !! i)) in Heq.
  rewrite !list_lookup_fmap, lookup_seq_lt in Heq by done.
  cbn in Heq. congruence.
Qed.

(** ** The device routes, one after another *)

Lemma owns_project_lookup st uid pid :
  owns_project st uid pid = true ↔ ∃ p, projects st !! pid = Some p ∧ user_id p = uid.
Proof.
  unfold owns_project. destruct (projects st !! pid) as [p|].
  - rewrite bool_decide_eq_true. split; [by exists p|]. by intros (? & [= <-] & ?).
  - split; [done|]. by intros (? & ? & _).
Qed.

Lemma authenticate_not_2xx getUser req r :
  authenticate getUser req = inl r →
  status r ≠ 200 ∧ status r ≠ 201 ∧ status r ≠ 204.
Proof. intros [-> | ->]%authenticate_rejects; done. Qed.

(** The creation route when it answers 201. *)
Lemma create_device_201 isUUID getUser env st req :
  status (create_device isUUID getUser env st req).1 = 201 →
  ∃ uid pid n tok,
    authenticate getUser req = inr uid
    ∧ body_project_id req = Some pid
    ∧ body_name req = Some n
    ∧ (1 <= isLength_len (trim n) <= 100)%nat
    ∧ owns_project st uid pid = true
    ∧ generate_device_token env = Some tok
    ∧ token_in_use st (assigned_id env) tok = false
    ∧ devices st !! assigned_id env = None
    ∧ create_device isUUID getUser env st req
      = (res_json 201
           (JObj [ ("device",
                    JObj (set_field "mqtt_password_hash" JUndefined
                            (row_fields (assigned_id env)
                               (inserted_row pid (trim n)
                                  match body_hardware_type req with
                                  | Some h => if truthy (trim h) then trim h else "ESP32"
                                  | None => "ESP32"
                                  end tok (clock env)))));
                   ("message",
                    JStr "Save this device_token! It will not be shown again.") ]),
         with_devices st
           (<[assigned_id env :=
                inserted_row pid (trim n)
                  match body_hardware_type req with
                  | Some h => if truthy (trim h) then trim h else "ESP32"
                  | None => "ESP32"
                  end tok (clock env)]> (devices st))).
Proof.
  unfold create_device, authenticated.
  destruct (authenticate getUser req) as [r|uid] eqn:Hauth.
  { intros H. by destruct (authenticate_not_2xx _ _ _ Hauth) as (_ & ? & _). }
  match goal with
  | |- context [validate ?l _ _] => destruct l as [|e errors] eqn:Hchecks
  end; cbn [validate]; [|done].
  destruct (body_project_id req) as [pid|]; [|done].
  destruct (body_name req) as [n|]; [|done].
  apply app_eq_nil in Hchecks as [_ Hname]. unfold check_trimmed_length in Hname.
  destruct (isLength 1 100 (trim n)) eqn:Hlen in Hname; [|done].
  apply andb_prop in Hlen as [?%Nat.leb_le ?%Nat.leb_le].
  destruct (store_fault env 0%nat); [done|]. cbn [orb].
  destruct (owns_project st uid pid) eqn:Howns; [|done]. cbn [negb].
  destruct (generate_device_token env) as [tok|]; [|done].
  destruct (store_fault env 1%nat); [done|]. cbn [orb].
  destruct (token_in_use st (assigned_id env) tok) eqn:Hfree; [done|]. cbn [orb].
  destruct (bool_decide (is_Some (devices st !! assigned_id env))) eqn:Hnew; [done|].
  intros _. exists uid, pid, n, tok. repeat split; try done.
  apply bool_decide_eq_false in Hnew. by apply eq_None_not_Some.
Qed.

(** X11. What a 201 of the creation route means. The row is new, under the
    id the store assigned, in a project of the caller; no other row, no
    project and no channel changes. The device starts unprovisioned, with no
    broker credentials; its name is the name of the body as [trim()] leaves
    it, of 1 to 100 characters as [isLength] counts them; its hardware type
    is never empty. Its token is the one the database function generated,
    and the response shows it. *)
Theorem create_device_created isUUID getUser env st req :
  status (create_device isUUID getUser env st req).1 = 201 →
  let r := (create_device isUUID getUser env st req).1 in
  let st' := (create_device isUUID getUser env st req).2 in
  ∃ uid n row,
    authenticate getUser req = inr uid
    ∧ devices st !! assigned_id env = None
    ∧ devices st' !! assigned_id env = Some row
    ∧ (∀ id, id ≠ assigned_id env → devices st' !! id = devices st !! id)
    ∧ projects st' = projects st
    ∧ device_channels st' = device_channels st
    ∧ body_project_id req = Some (project_id row)
    ∧ owns_project st uid (project_id row) = true
    ∧ is_provisioned row = false
    ∧ mqtt_username row = None ∧ mqtt_password_hash row = None
    ∧ provisioned_at row = None
    ∧ body_name req = Some n ∧ name row = trim n
    ∧ (1 <= isLength_len (name row) <= 100)%nat
    ∧ hardware_type row ≠ ""
    ∧ generate_device_token env = Some (device_token row)
    ∧ body_field "device" r ≫= get_field "device_token" = Some (JStr (device_token row)).
Proof.
  intros H201. cbv zeta.
  destruct (create_device_201 _ _ _ _ _ H201)
    as (uid & pid & n & tok & Hauth & Hpid & Hn & Hlen & Howns & Htok & Hfree & Hnew & ->).
  cbn [fst snd]. exists uid, n. eexists.
  split; [done|]. split; [done|]. split; [cbn; apply lookup_insert_eq|].
  split; [intros id Hne; cbn; by rewrite lookup_insert_ne|].
  cbn [projects device_channels with_devices inserted_row project_id is_provisioned
       mqtt_username mqtt_password_hash provisioned_at name hardware_type
       device_token].
  repeat split; try done; try lia.
  destruct (body_hardware_type req) as [h|]; [|done].
  destruct (truthy (trim h)) eqn:Ht; [|done].
  unfold truthy in Ht. apply negb_true_iff in Ht. by apply String.eqb_neq in Ht.
Qed.

Lemma create_device_created_witness :
  let env := Scenario.env in
  let st := Scenario.store in
  let r := (create_device Scenario.isUUID Scenario.getUser env st create_request).1 in
  let st' := (create_device Scenario.isUUID Scenario.getUser env st create_request).2 in
  ∃ uid n row,
    authenticate Scenario.getUser create_request = inr uid
    ∧ devices st !! assigned_id env = None
    ∧ devices st' !! assigned_id env = Some row
    ∧ (∀ id, id ≠ assigned_id env → devices st' !! id = devices st !! id)
    ∧ projects st' = projects st
    ∧ device_channels st' = device_channels st
    ∧ body_project_id create_request = Some (project_id row)
    ∧ owns_project st uid (project_id row) = true
    ∧ is_provisioned row = false
    ∧ mqtt_username row = None ∧ mqtt_password_hash row = None
    ∧ provisioned_at row = None
    ∧ body_name create_request = Some n ∧ name row = trim n
    ∧ (1 <= isLength_len (name row) <= 100)%nat
    ∧ hardware_type row ≠ ""
    ∧ generate_device_token env = Some (device_token row)
    ∧ body_field "device" r ≫= get_field "device_token" = Some (JStr (device_token row)).
Proof.
  apply (create_device_created Scenario.isUUID Scenario.getUser Scenario.env
           Scenario.store create_request).
  vm_compute. reflexivity.
Defined.

Lemma provision_no_holder env st req tok :
  valid_body req tok →
  (∀ id d, devices st !! id = Some d → device_token d ≠ tok) →
  provision env st req = (invalid_device_token, st).
Proof.
  intros [Htok Hchecks]%valid_body_checks Hnone.
  unfold provision. rewrite Hchecks, Htok. cbn [validate]. unfold provision_handler.
  rewrite (select_by_token_none st tok Hnone). by destruct (store_fault env 0%nat).
Qed.

(** X12. Registration, then provisioning. The token shown by a 201 of the
    creation route is the credential of the new device: a provisioning
    request that carries it, against the store the creation left, succeeds
    when both store calls do. The response names the new device, and the
    broker username and the topics are built from the id of the user who
    registered it. *)
Theorem create_device_then_provision isUUID getUser env st req env' req' tok :
  let created := create_device isUUID getUser env st req in
  let provisioned := provision env' created.2 req' in
  status created.1 = 201 →
  body_field "device" created.1 ≫= get_field "device_token" = Some (JStr tok) →
  valid_body req' tok →
  store_fault env' 0%nat = false →
  store_fault env' 1%nat = false →
  ∃ uid row,
    authenticate getUser req = inr uid
    ∧ status provisioned.1 = 200
    ∧ response_client_id provisioned.1 = Some (JStr (assigned_id env))
    ∧ body_field "topics" provisioned.1 = Some (topics uid (assigned_id env))
    ∧ devices provisioned.2 !! assigned_id env = Some row
    ∧ is_provisioned row = true
    ∧ mqtt_username row = Some (mqttUsername uid (assigned_id env)).
Proof.
  cbv zeta. intros H201 Hshown Hbody Hfind Hwrite.
  destruct (create_device_201 _ _ _ _ _ H201)
    as (uid & pid & n & tok' & Hauth & Hpid & Hn & Hlen & Howns & Htok & Hfree & Hnew & Heq).
  rewrite Heq in *. cbn [fst snd] in *.
  assert (tok' = tok) as -> by (cbn in Hshown; congruence).
  apply owns_project_lookup in Howns as (p & Hp & <-).
  match goal with
  | |- context [with_devices st (<[?id := ?row]> (devices st))] =>
      assert (sole_holder (with_devices st (<[id := row]> (devices st))) tok id row)
        as Hsole
  end.
  { split; [cbn; apply lookup_insert_eq|]. split; [done|].
    intros id' d' Hl Ht. destruct (decide (id' = assigned_id env)) as [|Hne]; [done|].
    cbn in Hl. rewrite lookup_insert_ne in Hl by done.
    rewrite token_in_use_false in Hfree. by destruct (Hfree id' d' Hl Hne). }
  erewrite provision_resolved; [|done|exact Hsole|done|exact Hp|done].
  rewrite Hwrite. cbn [fst snd]. exists (user_id p). eexists.
  split; [done|]. split; [done|].
  split; [apply response_client_id_credentials|].
  split; [apply topics_credentials|].
  split; [cbn; apply lookup_insert_eq|]. done.
Qed.

Lemma create_device_then_provision_witness :
  let created :=
    create_device Scenario.isUUID Scenario.getUser Scenario.env Scenario.store
      create_request in
  let provisioned :=
    provision Scenario.env created.2 (device_request Scenario.other_token) in
  ∃ uid row,
    authenticate Scenario.getUser create_request = inr uid
    ∧ status provisioned.1 = 200
    ∧ response_client_id provisioned.1 = Some (JStr (assigned_id Scenario.env))
    ∧ body_field "topics" provisioned.1 = Some (topics uid (assigned_id Scenario.env))
    ∧ devices provisioned.2 !! assigned_id Scenario.env = Some row
    ∧ is_provisioned row = true
    ∧ mqtt_username row = Some (mqttUsername uid (assigned_id Scenario.env)).
Proof.
  apply (create_device_then_provision Scenario.isUUID Scenario.getUser Scenario.env
           Scenario.store create_request Scenario.env
           (device_request Scenario.other_token) Scenario.other_token).
  - vm_compute. reflexivity.
  - vm_compute. reflexivity.
  - apply valid_body_checks. vm_compute. split; reflexivity.
  - reflexivity.
  - reflexivity.
Defined.

(** The deletion route when it answers 204. *)
Lemma delete_device_204 isUUID getUser env st req :
  status (delete_device isUUID getUser env st req).1 = 204 →
  ∃ uid,
    authenticate getUser req = inr uid
    ∧ isUUID (params_id req) = true
    ∧ store_fault env 0%nat = false
    ∧ (delete_device isUUID getUser env st req).2
      = match user_device st uid (params_id req) with
        | inr _ =>
            {| devices := delete (params_id req) (devices st);
               projects := projects st;
               device_channels :=
                 filter (λ c, channel_device_id c ≠ params_id req) (device_channels st) |}
        | inl _ => st
        end.
Proof.
  unfold delete_device, authenticated, validate, check_id.
  destruct (authenticate getUser req) as [r|uid] eqn:Hauth.
  { intros H. by destruct (authenticate_not_2xx _ _ _ Hauth) as (_ & _ & ?). }
  destruct (isUUID (params_id req)); [|done].
  destruct (store_fault env 0%nat); [done|].
  intros _. by exists uid.
Qed.

(** X13. What a 204 of the deletion route means. A device of the caller is
    removed with its channels, and those of the other devices stay. The
    route also answers 204 when the id is that of no device, or of a device
    of someone else: then the store is as before. No other row and no
    project changes, and the same request once more is answered 204 again
    and changes nothing. *)
Theorem delete_device_deleted isUUID getUser env st req :
  status (delete_device isUUID getUser env st req).1 = 204 →
  let st' := (delete_device isUUID getUser env st req).2 in
  ∃ uid,
    authenticate getUser req = inr uid
    ∧ (∀ d, devices st !! params_id req = Some d →
            owns_project st uid (project_id d) = true →
            devices st' !! params_id req = None
            ∧ ∀ c, c ∈ device_channels st'
                   ↔ c ∈ device_channels st ∧ channel_device_id c ≠ params_id req)
    ∧ ((∀ d, devices st !! params_id req = Some d →
             owns_project st uid (project_id d) = false) → st' = st)
    ∧ (∀ id, id ≠ params_id req → devices st' !! id = devices st !! id)
    ∧ projects st' = projects st
    ∧ ∀ env', store_fault env' 0%nat = false →
              delete_device isUUID getUser env' st' req
              = ({| status := 204; body := None |}, st').
Proof.
  intros H204. cbv zeta.
  destruct (delete_device_204 _ _ _ _ _ H204) as (uid & Hauth & Hid & Hfault & ->).
  exists uid. split; [done|].
  destruct (user_device st uid (params_id req)) as [e|d] eqn:Hdev.
  - split; [|split; [|split; [|split]]]; try done.
    + intros d Hl Howns.
      assert (user_device st uid (params_id req) = inr d) as Hd
        by (by apply user_device_lookup). congruence.
    + intros env' Hfault'. unfold delete_device, authenticated, validate, check_id.
      by rewrite Hauth, Hid, Hfault', Hdev.
  - apply user_device_lookup in Hdev as [Hl Howns].
    split; [|split; [|split; [|split]]]; cbn.
    + intros _ _ _. split; [apply lookup_delete_eq|].
      intros c. by rewrite list_elem_of_filter, (comm and).
    + intros Hforeign. specialize (Hforeign d Hl). congruence.
    + intros id Hne. by rewrite lookup_delete_ne.
    + done.
    + intros env' Hfault'. unfold delete_device, authenticated, validate, check_id.
      rewrite Hauth, Hid, Hfault'. unfold user_device. cbn.
      by rewrite lookup_delete_eq.
Qed.

Lemma delete_device_deleted_witness :
  let req := Scenario.owner_request Scenario.device None None in
  let st := Scenario.store in
  let st' := (delete_device Scenario.isUUID Scenario.getUser Scenario.env st req).2 in
  ∃ uid,
    authenticate Scenario.getUser req = inr uid
    ∧ (∀ d, devices st !! params_id req = Some d →
            owns_project st uid (project_id d) = true →
            devices st' !! params_id req = None
            ∧ ∀ c, c ∈ device_channels st'
                   ↔ c ∈ device_channels st ∧ channel_device_id c ≠ params_id req)
    ∧ ((∀ d, devices st !! params_id req = Some d →
             owns_project st uid (project_id d) = false) → st' = st)
    ∧ (∀ id, id ≠ params_id req → devices st' !! id = devices st !! id)
    ∧ projects st' = projects st
    ∧ ∀ env', store_fault env' 0%nat = false →
              delete_device Scenario.isUUID Scenario.getUser env' st' req
              = ({| status := 204; body := None |}, st').
Proof.
  apply (delete_device_deleted Scenario.isUUID Scenario.getUser Scenario.env
           Scenario.store (Scenario.owner_request Scenario.device None None)).
  vm_compute. reflexivity.
Defined.

(** X14. Deletion, then provisioning. Once a device of the caller is
    deleted, its token is the token of no device: where tokens are unique, a
    provisioning request that carries it is answered 401 and writes
    nothing. *)
Theorem delete_device_then_provision isUUID getUser env st req uid d env' req' :
  let deleted := delete_device isUUID getUser env st req in
  status deleted.1 = 204 →
  authenticate getUser req = inr uid →
  devices st !! params_id req = Some d →
  owns_project st uid (project_id d) = true →
  unique_tokens st →
  valid_body req' (device_token d) →
  provision env' deleted.2 req' = (invalid_device_token, deleted.2).
Proof.
  cbv zeta. intros H204 Hauth Hl Howns Huniq Hbody.
  destruct (delete_device_204 _ _ _ _ _ H204) as (uid' & Hauth' & _ & _ & Heq).
  assert (uid' = uid) as -> by congruence.
  assert (user_device st uid (params_id req) = inr d) as Hdev
    by (by apply user_device_lookup).
  rewrite Hdev in Heq. rewrite Heq.
  apply (provision_no_holder _ _ _ _ Hbody).
  intros id d' Hl' Ht. cbn in Hl'.
  destruct (decide (id = params_id req)) as [->|Hne].
  - by rewrite lookup_delete_eq in Hl'.
  - rewrite lookup_delete_ne in Hl' by done.
    by destruct (Hne (Huniq id (params_id req) d' d Hl' Hl Ht)).
Qed.

Lemma delete_device_then_provision_witness :
  let deleted :=
    delete_device Scenario.isUUID Scenario.getUser Scenario.env Scenario.store
      (Scenario.owner_request Scenario.device None None) in
  provision Scenario.env deleted.2 Scenario.request = (invalid_device_token, deleted.2).
Proof.
  apply (delete_device_then_provision Scenario.isUUID Scenario.getUser Scenario.env
           Scenario.store (Scenario.owner_request Scenario.device None None)
           Scenario.owner Scenario.row Scenario.env Scenario.request).
  - vm_compute. reflexivity.
  - vm_compute. reflexivity.
  - vm_compute. reflexivity.
  - vm_compute. reflexivity.
  - intros i j di dj Hi Hj _.
    assert (∀ k dk, devices Scenario.store !! k = Some dk → k = Scenario.device) as Hone.
    { intros k dk Hk. unfold Scenario.store in Hk. cbn [devices] in Hk.
      by apply lookup_singleton_Some in Hk as [<- _]. }
    by rewrite (Hone i di), (Hone j dj).
  - apply valid_body_checks. vm_compute. split; reflexivity.
Defined.

(** X15. Regeneration, then provisioning. After a 200 of the regeneration
    route with a token other than the one the device had, where tokens are
    unique: a provisioning request with the former token is answered 401
    and writes nothing, and one with the new token succeeds when both store
    calls do, for the same device. *)
Theorem regenerate_token_then_provision isUUID getUser env st req d tok env' old new :
  let regenerated := regenerate_token isUUID getUser env st req in
  status regenerated.1 = 200 →
  devices st !! params_id req = Some d →
  generate_device_token env = Some tok →
  tok ≠ device_token d →
  unique_tokens st →
  valid_body old (device_token d) →
  valid_body new tok →
  store_fault env' 0%nat = false →
  store_fault env' 1%nat = false →
  provision env' regenerated.2 old = (invalid_device_token, regenerated.2)
  ∧ status (provision env' regenerated.2 new).1 = 200
  ∧ response_client_id (provision env' regenerated.2 new).1 = Some (JStr (params_id req)).
Proof.
  cbv zeta. intros H200 Hl Htok Hne Huniq Hold Hnew Hfind Hwrite.
  destruct (regenerate_token_200 _ _ _ _ _ H200)
    as (uid & d' & tok' & Hauth & Hid & Hdev & Htok' & Hfree & Hfault).
  assert (tok' = tok) as -> by congruence.
  rewrite (regenerate_token_success isUUID getUser env st req uid d' tok) by done.
  apply user_device_lookup in Hdev as [Hl' Howns].
  assert (d' = d) as -> by congruence.
  apply owns_project_lookup in Howns as (p & Hp & _).
  cbn [fst snd]. split.
  - apply (provision_no_holder _ _ _ _ Hold).
    intros id d'' Hl'' Ht. cbn in Hl''.
    destruct (decide (id = params_id req)) as [->|Hid'].
    + rewrite lookup_insert_eq in Hl''. injection Hl'' as <-. cbn in Ht. congruence.
    + rewrite lookup_insert_ne in Hl'' by done.
      by destruct (Hid' (Huniq id (params_id req) d'' d Hl'' Hl Ht)).
  - assert (sole_holder
              (with_devices st (<[params_id req := regenerated_row d tok]> (devices st)))
              tok (params_id req) (regenerated_row d tok)) as Hsole.
    { split; [cbn; apply lookup_insert_eq|]. split; [done|].
      intros id' d'' Hl'' Ht.
      destruct (decide (id' = params_id req)) as [|Hid']; [done|].
      cbn in Hl''. rewrite lookup_insert_ne in Hl'' by done.
      rewrite token_in_use_false in Hfree. by destruct (Hfree id' d'' Hl'' Hid'). }
    erewrite provision_resolved; [|done|exact Hsole|done|exact Hp|done].
    rewrite Hwrite. cbn [fst]. split; [done|apply response_client_id_credentials].
Qed.

Lemma regenerate_token_then_provision_witness :
  let regenerated :=
    regenerate_token Scenario.isUUID Scenario.getUser Scenario.env Scenario.store
      (Scenario.owner_request Scenario.device None None) in
  provision Scenario.env regenerated.2 Scenario.request
  = (invalid_device_token, regenerated.2)
  ∧ status (provision Scenario.env regenerated.2 Scenario.second_request).1 = 200
  ∧ response_client_id (provision Scenario.env regenerated.2 Scenario.second_request).1
    = Some (JStr (params_id (Scenario.owner_request Scenario.device None None))).
Proof.
  apply (regenerate_token_then_provision Scenario.isUUID Scenario.getUser Scenario.env
           Scenario.store (Scenario.owner_request Scenario.device None None)
           Scenario.row Scenario.other_token Scenario.env
           Scenario.request Scenario.second_request).
  - vm_compute. reflexivity.
  - vm_compute. reflexivity.
  - reflexivity.
  - vm_compute. discriminate.
  - intros i j di dj Hi Hj _.
    assert (∀ k dk, devices Scenario.store !! k = Some dk → k = Scenario.device) as Hone.
    { intros k dk Hk. unfold Scenario.store in Hk. cbn [devices] in Hk.
      by apply lookup_singleton_Some in Hk as [<- _]. }
    by rewrite (Hone i di), (Hone j dj).
  - apply valid_body_checks. vm_compute. split; reflexivity.
  - apply valid_body_checks. vm_compute. split; reflexivity.
  - reflexivity.
  - reflexivity.
Defined.

(** X16. An operation that does not answer 200, 201 or 204 leaves the store
    as it was, whatever it had done until then; the two reading routes
    leave it as it was whatever they answer. *)
Theorem failure_leaves_store isUUID getUser op env st req :
  let r := (run isUUID getUser op env st req).1 in
  let st' := (run isUUID getUser op env st req).2 in
  (status r ≠ 200 → status r ≠ 201 → status r ≠ 204 → st' = st)
  ∧ (op = ListDevices ∨ op = GetDevice → st' = st).
Proof.
  cbv zeta. split.
  - destruct op; cbn [run].
    + by destruct (provision_outcome env st req).
    + unfold list_devices, authenticated, validate. by route_cases.
    + unfold get_device, authenticated, validate. by route_cases.
    + unfold create_device, authenticated, validate. by route_cases.
    + unfold patch_device, authenticated, validate. by route_cases.
    + unfold delete_device, authenticated, validate. by route_cases.
    + unfold regenerate_token, authenticated, validate. by route_cases.
  - intros [-> | ->]; cbn [run].
    + unfold list_devices, authenticated, validate. by route_cases.
    + unfold get_device, authenticated, validate. by route_cases.
Qed.

(** X17. A device of someone else's project is hidden from the routes that
    take its id: reading, updating, regenerating the token of and deleting
    such a device get the answer they get for an id no device has, and
    change nothing. *)
Theorem foreign_device_hidden isUUID getUser op env st st0 req uid d :
  authenticate getUser req = inr uid →
  devices st !! params_id req = Some d →
  owns_project st uid (project_id d) = false →
  devices st0 !! params_id req = None →
  op = GetDevice ∨ op = PatchDevice ∨ op = RegenerateToken ∨ op = DeleteDevice →
  (run isUUID getUser op env st req).1 = (run isUUID getUser op env st0 req).1
  ∧ (run isUUID getUser op env st req).2 = st.
Proof.
  intros Hauth Hl Howns Hl0 Hop.
  assert (user_device st uid (params_id req) = inl PGRST116) as Hdev
    by (unfold user_device; by rewrite Hl, Howns).
  assert (user_device st0 uid (params_id req) = inl PGRST116) as Hdev0
    by (unfold user_device; by rewrite Hl0).
  destruct Hop as [->|[->|[->| ->]]]; cbn [run].
  - unfold get_device, authenticated, validate. rewrite Hauth, Hdev, Hdev0.
    by route_cases.
  - unfold patch_device, authenticated, validate. rewrite Hauth, Hdev, Hdev0.
    by route_cases.
  - unfold regenerate_token, authenticated, validate. rewrite Hauth, Hdev, Hdev0.
    by route_cases.
  - unfold delete_device, authenticated, validate. rewrite Hauth, Hdev, Hdev0.
    by route_cases.
Qed.

Lemma foreign_device_hidden_witness :
  let req := Scenario.owner_request Scenario.device None None in
  (run Scenario.isUUID Scenario.getUser GetDevice Scenario.env foreign_store req).1
  = (run Scenario.isUUID Scenario.getUser GetDevice Scenario.env
       Scenario.store_without_devices req).1
  ∧ (run Scenario.isUUID Scenario.getUser GetDevice Scenario.env foreign_store req).2
    = foreign_store.
Proof.
  apply (foreign_device_hidden Scenario.isUUID Scenario.getUser GetDevice Scenario.env
           foreign_store Scenario.store_without_devices
           (Scenario.owner_request Scenario.device None None)
           Scenario.owner Scenario.row).
  - vm_compute. reflexivity.
  - vm_compute. reflexivity.
  - vm_compute. reflexivity.
  - vm_compute. reflexivity.
  - left. reflexivity.
Defined.

(** ** The broker username *)

Lemma string_length_app (a b : string) :
  String.length (a +:+ b) = (String.length a + String.length b)%nat.
Proof.
  induction a as [|c r IH]; [done|].
  change (String c r +:+ b) with (String c (r +:+ b)). cbn. by rewrite IH.
Qed.

Lemma string_forall_app p (a b : string) :
  string_forall p (a +:+ b) = string_forall p a && string_forall p b.
Proof.
  induction a as [|c r IH]; [done|].
  change (String c r +:+ b) with (String c (r +:+ b)). cbn.
  by rewrite IH, andb_assoc.
Qed.

Lemma remove_hyphens_app (a b : string) :
  remove_hyphens (a +:+ b) = remove_hyphens a +:+ remove_hyphens b.
Proof.
  induction a as [|c r IH]; [done|].
  change (String c r +:+ b) with (String c (r +:+ b)). cbn [remove_hyphens].
  rewrite IH. by destruct (Ascii.eqb c "-").
Qed.

Lemma remove_hyphens_none s :
  string_forall (λ c, negb (Ascii.eqb c "-")) (remove_hyphens s) = true.
Proof.
  induction s as [|c r IH]; [done|]. cbn [remove_hyphens].
  destruct (Ascii.eqb c "-") eqn:Hc; [done|]. cbn. by rewrite Hc.
Qed.

Lemma slice_0_app n (a b : string) :
  (n <= String.length a)%nat → slice_0 n (a +:+ b) = slice_0 n a.
Proof.
  revert a. induction n as [|n IH]; intros [|c r] Hlen; try done.
  - cbn in Hlen. lia.
  - change (String c r +:+ b) with (String c (r +:+ b)). cbn [slice_0].
    rewrite IH; [done|]. cbn in Hlen. lia.
Qed.

(** X18. The broker username has at most 21 characters and no hyphen, and
    only the first eight characters other than hyphens of the user id and
    of the device id go into it: ids that agree on those give the same
    username. *)
Theorem mqttUsername_prefixes user_id id :
  (String.length (mqttUsername user_id id) <= 21)%nat
  ∧ string_forall (λ c, negb (Ascii.eqb c "-")) (mqttUsername user_id id) = true
  ∧ ∀ s t,
      (8 <= String.length (remove_hyphens user_id))%nat →
      (8 <= String.length (remove_hyphens id))%nat →
      mqttUsername (user_id +:+ s) (id +:+ t) = mqttUsername user_id id.
Proof.
  unfold mqttUsername. split; [|split].
  - rewrite !string_length_app.
    pose proof (slice_0_length 8 (remove_hyphens user_id)).
    pose proof (slice_0_length 8 (remove_hyphens id)).
    change (String.length "u_") with 2%nat. change (String.length "_d_") with 3%nat. lia.
  - rewrite !string_forall_app.
    rewrite !string_forall_slice_0 by apply remove_hyphens_none. done.
  - intros s t Hu Hd. by rewrite !remove_hyphens_app, !slice_0_app.
Qed.

Example mqttUsername_collision :
  mqttUsername Scenario.owner "22222222-2222-4222-8222-222222222222"
  = mqttUsername Scenario.owner "22222222-aaaa-bbbb-cccc-dddddddddddd".
Proof. vm_compute. reflexivity. Qed.

(** ** The list of devices *)

Lemma insert_desc_perm row rows : insert_desc row rows ≡ₚ row :: rows.
Proof.
  induction rows as [|r rest IH]; cbn; [done|].
  destruct (String.leb _ _); [done|]. rewrite IH. apply Permutation_swap.
Qed.

Lemma order_desc_perm rows : order_desc rows ≡ₚ rows.
Proof.
  unfold order_desc. induction rows as [|r rest IH]; cbn; [done|].
  by rewrite insert_desc_perm, IH.
Qed.

(** X19. What a 200 of the listing route shows: the devices of the projects
    of the caller, each of them once, and no other; when the query names a
    project, those of that project only. *)
Theorem list_devices_rows isUUID getUser env st req :
  status (list_devices isUUID getUser env st req).1 = 200 →
  ∃ uid rows,
    authenticate getUser req = inr uid
    ∧ (list_devices isUUID getUser env st req).1
      = res_json 200
          (JObj [("devices",
                  JArr (map (λ row,
                          sanitize (row_fields (fst row) (snd row)
                                    ++ [("project",
                                         project_json st uid (project_id (snd row)))]))
                          rows))])
    ∧ NoDup rows
    ∧ ∀ id d,
        (id, d) ∈ rows
        ↔ devices st !! id = Some d
          ∧ owns_project st uid (project_id d) = true
          ∧ ∀ p, query_project_id req = Some p → truthy p = true → project_id d = p.
Proof.
  unfold list_devices, authenticated.
  destruct (authenticate getUser req) as [r|uid] eqn:Hauth.
  { intros H. by destruct (authenticate_not_2xx _ _ _ Hauth) as (? & _). }
  match goal with
  | |- context [validate ?l _ _] => destruct l as [|e errors]
  end; cbn [validate]; [|done].
  destruct (store_fault env 0%nat); [done|]. cbv zeta. cbn [fst].
  intros _. exists uid. eexists. split; [done|]. split; [reflexivity|].
  assert (NoDup (order_desc (visible_devices st uid))) as Hnd.
  { rewrite order_desc_perm. apply NoDup_filter, NoDup_map_to_list. }
  assert (∀ id d, (id, d) ∈ order_desc (visible_devices st uid)
                  ↔ devices st !! id = Some d
                    ∧ owns_project st uid (project_id d) = true) as Hin.
  { intros id d. rewrite order_desc_perm. unfold visible_devices.
    rewrite list_elem_of_filter, elem_of_map_to_list. cbn. tauto. }
  destruct (query_project_id req) as [p|].
  - destruct (truthy p) eqn:Hp.
    + split; [by apply NoDup_filter|]. intros id d.
      rewrite list_elem_of_filter, Hin. cbn. split.
      * intros (Hproj & Hl & Howns). repeat split; try done. by intros ? [= <-] _.
      * intros (Hl & Howns & Hproj). split; [by apply Hproj|done].
    + split; [done|]. intros id d. rewrite Hin. split.
      * intros [Hl Howns]. repeat split; try done. intros ? [= <-]. congruence.
      * tauto.
  - split; [done|]. intros id d. rewrite Hin. split; [|tauto].
    intros [Hl Howns]. by repeat split.
Qed.

Lemma list_devices_rows_witness :
  let req := Scenario.owner_request "" None None in
  let st := Scenario.store in
  ∃ uid rows,
    authenticate Scenario.getUser req = inr uid
    ∧ (list_devices Scenario.isUUID Scenario.getUser Scenario.env st req).1
      = res_json 200
          (JObj [("devices",
                  JArr (map (λ row,
                          sanitize (row_fields (fst row) (snd row)
                                    ++ [("project",
                                         project_json st uid (project_id (snd row)))]))
                          rows))])
    ∧ NoDup rows
    ∧ ∀ id d,
        (id, d) ∈ rows
        ↔ devices st !! id = Some d
          ∧ owns_project st uid (project_id d) = true
          ∧ ∀ p, query_project_id req = Some p → truthy p = true → project_id d = p.
Proof.
  apply (list_devices_rows Scenario.isUUID Scenario.getUser Scenario.env Scenario.store
           (Scenario.owner_request "" None None)).
  vm_compute. reflexivity.
Defined.

(** ** The project routes and the store *)

Lemma isLength_len_le s : (isLength_len s <= String.length s)%nat.
Proof.
  unfold isLength_len.
  assert (code_points s <= String.length s)%nat; [|lia].
  induction s as [|c r IH]; [done|]. cbn. destruct (is_continuation c); lia.
Qed.

Lemma check_trimmed_length_nil path max required value :
  check_trimmed_length path max required value = [] →
  match value with
  | Some s => (1 <= isLength_len (trim s) <= max)%nat
  | None => required = false
  end.
Proof.
  unfold check_trimmed_length, isLength. destruct value as [s|].
  - destruct (_ && _) eqn:Hlen; [|done].
    apply andb_prop in Hlen as [?%Nat.leb_le ?%Nat.leb_le]. done.
  - by destruct required.
Qed.

Lemma truthy_length s : (1 <= isLength_len s)%nat → truthy s = true.
Proof. destruct s; [cbn; lia|done]. Qed.

(** X20. The creation route of the projects and the store. The route
    answers at once with a 400, a 401 or a 500, or it asks the store for one
    insert, as the authenticated user, of a row whose [user_id] is that
    user, whose name is the name of the body as [trim()] leaves it, of 1 to
    100 characters, and whose slug has at most 50; the slug is empty only if
    the name has no letter and no digit. The code 23505 of the store is
    answered 409, every other code 500, a row 201. *)
Theorem create_project_insert getUser req more :
  match create_project getUser req more with
  | Answer r => status r = 400 ∨ status r = 401 ∨ status r = 500
  | Ask uid row answer =>
      authenticate getUser req = inr uid
      ∧ insert_user_id row = uid
      ∧ (∃ n, body_name req = Some n ∧ insert_name row = trim n)
      ∧ (1 <= isLength_len (insert_name row) <= 100)%nat
      ∧ (isLength_len (insert_slug row) <= 50)%nat
      ∧ (insert_slug row = "" → no_alphanumeric (insert_name row) = true)
      ∧ answer (inl "23505") = failed 409 "A project with this slug already exists"
      ∧ (∀ code, code ≠ "23505" → answer (inl code) = failed 500 "Failed to create project")
      ∧ ∀ data, answer (inr data) = res_json 201 (JObj [("project", data)])
  end.
Proof.
  unfold create_project.
  destruct (authenticate getUser req) as [r|uid] eqn:Hauth.
  { apply authenticate_rejects in Hauth. tauto. }
  destruct (project_checks true req more) as [|e errors] eqn:Hchecks; [|cbn; tauto].
  cbn [validated].
  apply app_eq_nil in Hchecks as [Hname%check_trimmed_length_nil
                                   Hslug%check_trimmed_length_nil].
  destruct (body_name req) as [n|] eqn:Hn; [|done].
  cbn [insert_user_id insert_name insert_slug].
  split; [done|]. split; [done|]. split; [by exists n|]. split; [done|].
  split; [|split; [|split; [done|split; [|done]]]].
  - unfold project_slug. destruct (body_slug more) as [s|].
    + rewrite truthy_length by lia. lia.
    + pose proof (isLength_len_le (generateSlug (trim n))).
      pose proof (slice_0_length 50
        (strip_trailing_hyphen
           (strip_leading_hyphen (replace_runs false (toLowerCase (trim n)))))).
      unfold generateSlug in *. lia.
  - unfold project_slug. destruct (body_slug more) as [s|].
    + rewrite truthy_length by lia. intros Hs. rewrite Hs in Hslug. cbn in Hslug. lia.
    + apply generateSlug_nil.
  - intros code Hcode. apply String.eqb_neq in Hcode. by rewrite Hcode.
Qed.

Example create_project_scenario :
  run_plan (λ _ row, inr (JStr (insert_slug row)))
    (create_project Scenario.getUser
       (project_request "" (Some "  Smart Home ")) project_body)
  = res_json 201 (JObj [("project", JStr "smart-home")])
  ∧ run_plan (λ _ row, inr (JStr (insert_slug row)))
      (create_project Scenario.getUser (project_request "" (Some "?!")) project_body)
    = res_json 201 (JObj [("project", JStr "")])
  ∧ run_plan (λ _ _, inl "23505")
      (create_project Scenario.getUser (project_request "" (Some "Home")) project_body)
    = failed 409 "A project with this slug already exists"
  ∧ (∃ r, create_project Scenario.getUser (project_request "" (Some "   ")) project_body
          = Answer r ∧ status r = 400)
  ∧ (∃ r, create_project Scenario.getUser
            (project_request "" (Some (copies 101 "é"))) project_body
          = Answer r ∧ status r = 400)
  ∧ ∃ answer,
      create_project Scenario.getUser
        (project_request "" (Some (copies 100 "é"))) project_body
      = Ask Scenario.owner
          {| insert_user_id := Scenario.owner; insert_name := copies 100 "é";
             insert_slug := ""; insert_description := Some "all the plugs" |}
          answer.
Proof.
  split; [vm_compute; reflexivity|]. split; [vm_compute; reflexivity|].
  split; [vm_compute; reflexivity|].
  split; [eexists; split; [vm_compute; reflexivity|reflexivity]|].
  split; [eexists; split; [vm_compute; reflexivity|reflexivity]|].
  eexists. vm_compute. reflexivity.
Qed.

Lemma project_updates_spec req more u :
  project_checks false req more = [] →
  u ∈ project_updates req more → project_update u.
Proof.
  intros [Hname%check_trimmed_length_nil Hslug%check_trimmed_length_nil]%app_eq_nil.
  unfold project_updates, project_update. rewrite !elem_of_app.
  destruct (body_name req) as [n|], (body_slug more) as [s|],
    (body_description more) as [d|];
    rewrite ?truthy_length by lia;
    rewrite ?list_elem_of_singleton, ?elem_of_nil;
    intros [Hu|[Hu|Hu]]; try done; subst u; cbn; auto.
Qed.

(** X21. The update route of the projects and the store. The route answers
    at once with a 400, a 401 or a 500, or it asks the store for one update,
    as the authenticated user, of the row named by a well-formed id, with at
    least one property, each of them a name of 1 to 100 characters, a slug
    of 1 to 50 or a description. The code PGRST116 of the store is answered
    404, the code 23505 409, every other code 500, a row 200. A body with
    none of the three properties is answered 400 without a call, once it has
    passed authentication and the check of the id. *)
Theorem patch_project_update isUUID getUser req more :
  match patch_project isUUID getUser req more with
  | Answer r => status r = 400 ∨ status r = 401 ∨ status r = 500
  | Ask uid call answer =>
      authenticate getUser req = inr uid
      ∧ isUUID (params_id req) = true
      ∧ update_id call = params_id req
      ∧ update_fields call ≠ []
      ∧ (∀ u, u ∈ update_fields call → project_update u)
      ∧ answer (inl "PGRST116") = failed 404 "Project not found"
      ∧ answer (inl "23505") = failed 409 "Slug already exists"
      ∧ (∀ code, code ≠ "PGRST116" → code ≠ "23505" →
                 answer (inl code) = failed 500 "Failed to update project")
      ∧ ∀ data, answer (inr data) = res_json 200 (JObj [("project", data)])
  end
  ∧ ∀ uid,
      authenticate getUser req = inr uid → isUUID (params_id req) = true →
      body_name req = None → body_slug more = None → body_description more = None →
      patch_project isUUID getUser req more
      = Answer (failed 400 "No valid fields to update").
Proof.
  split.
  - unfold patch_project.
    destruct (authenticate getUser req) as [r|uid] eqn:Hauth.
    { apply authenticate_rejects in Hauth. tauto. }
    destruct (app (check_id isUUID req) (project_checks false req more))
      as [|e errors] eqn:Hchecks; [|cbn; tauto].
    cbn [validated]. cbv zeta.
    apply app_eq_nil in Hchecks as [Hid Hchecks].
    destruct (project_updates req more) as [|u updates] eqn:Hupdates; [cbn; tauto|].
    cbn [length Nat.eqb update_id update_fields].
    split; [done|]. split.
    { unfold check_id in Hid. by destruct (isUUID (params_id req)). }
    split; [done|]. split; [done|]. split.
    { intros u' Hu. apply (project_updates_spec req more); [done|]. by rewrite Hupdates. }
    split; [done|]. split; [done|]. split; [|done].
    intros code H1 H2. apply String.eqb_neq in H1, H2. by rewrite H1, H2.
  - intros uid Hauth Hid Hn Hs Hd.
    unfold patch_project, project_updates, check_id, project_checks,
      check_trimmed_length.
    by rewrite Hauth, Hid, Hn, Hs, Hd.
Qed.

Lemma patch_project_update_witness :
  patch_project Scenario.isUUID Scenario.getUser
    (project_request Scenario.project None) {| body_slug := None; body_description := None |}
  = Answer (failed 400 "No valid fields to update")
  ∧ ∃ answer,
      patch_project Scenario.isUUID Scenario.getUser
        (project_request Scenario.project (Some " Home ")) project_body
      = Ask Scenario.owner
          {| update_id := Scenario.project;
             update_fields := [("name", "Home"); ("description", "all the plugs")] |}
          answer
      ∧ answer (inl "PGRST116") = failed 404 "Project not found".
Proof.
  split.
  - apply (proj2 (patch_project_update Scenario.isUUID Scenario.getUser
                    (project_request Scenario.project None)
                    {| body_slug := None; body_description := None |})
             Scenario.owner); reflexivity.
  - pose proof (proj1 (patch_project_update Scenario.isUUID Scenario.getUser
                         (project_request Scenario.project (Some " Home "))
                         project_body)) as Hplan.
    eexists. split; [vm_compute; reflexivity|reflexivity].
Defined.

(** ** The stored digest *)

(** X22. [hashPassword] is SHA-256 written in lower-case hexadecimal: it
    gives the digests of the standard for the string [abc] and for the empty
    string, and always 64 characters of [0-9a-f]. It can equal its input
    only when the input is itself 64 such characters, which no generated
    password is: in every provisioning that returns a password the row holds
    the digest of that password, and the digest is not the password. *)
Theorem hashPassword_digest :
  hashPassword "abc" = "ba7816bf8f01cfea414140de5dae2223b00361a396177a9cb410ff61f20015ad"
  ∧ hashPassword "" = "e3b0c44298fc1c149afbf4c8996fb92427ae41e4649b934ca495991b7852b855"
  ∧ (∀ p, String.length (hashPassword p) = 64%nat
          ∧ string_forall lower_hex (hashPassword p) = true)
  ∧ (∀ p, hashPassword p = p →
          String.length p = 64%nat ∧ string_forall lower_hex p = true)
  ∧ ∀ env st req password,
      response_password (provision env st req).1 = Some (JStr password) →
      hashPassword password ≠ password
      ∧ ∃ id row, devices (provision env st req).2 !! id = Some row
                  ∧ mqtt_password_hash row = Some (hashPassword password).
Proof.
  split; [exact sha256_abc|]. split; [exact sha256_empty|].
  split; [intros p; split; [apply hashPassword_length|apply hashPassword_lower_hex]|].
  split.
  { intros p Heq. rewrite <- Heq at 1 2.
    split; [apply hashPassword_length|apply hashPassword_lower_hex]. }
  intros env st req password.
  destruct (provision_outcome env st req) as [| | | |tok id device project];
    cbn [fst snd]; try discriminate.
  rewrite response_password_credentials. intros [= <-]. split.
  - intros Heq. pose proof (hashPassword_length (generateSecurePassword (entropy env))).
    rewrite Heq, generateSecurePassword_length in *. lia.
  - eexists id, _. split; [apply lookup_insert_eq|reflexivity].
Qed.
